(** * A shallow embedding of the RAG retrieval engine

    The development follows the Python sources

    - [document_processor.py]  ([TextSplitter.split_text]),
    - [vector_store.py]        ([VectorStore], [EmbeddingCache]),
    - [rag_engine.py]          ([OllamaClient], [RAGEngine]).

    Pure functions are Rocq functions; code that talks to the HTTP service,
    the clock, the file system, the cache directory or the Chroma collection
    is written in a state-and-exception monad over an explicit [world]. *)

From Stdlib Require Import ZArith QArith Lia Ascii String.
From stdpp Require Import base list gmap strings pretty.

Local Open Scope Z_scope.

(** ** Python values used by the code *)

Module Py.

(** A Python [str] is a sequence of Unicode code points. *)
Definition char := N.
Definition text := list char.

(** ASCII literals of the source. *)
Definition txt (s : string) : text :=
  (fun a => N_of_ascii a) <$> list_ascii_of_string s.

(** [len(t)] *)
Definition len {A} (t : list A) : Z := Z.of_nat (length t).

(** Index adjustment of a slice bound ([PySlice_AdjustIndices], step 1):
    negative bounds count from the end, everything is clamped to
    [0 .. len]. *)
Definition adjust (n i : Z) : Z :=
  if i <? 0 then Z.max 0 (i + n) else Z.min i n.

(** [t[i:j]] *)
Definition slice {A} (t : list A) (i j : Z) : list A :=
  let a := adjust (len t) i in
  let b := adjust (len t) j in
  take (Z.to_nat (b - a)) (drop (Z.to_nat a) t).

(** [str.isspace] on one code point, as [str.strip()] uses it. *)
Definition is_space (c : char) : bool :=
  let c := Z.of_N c in
  ((9 <=? c) && (c <=? 13)) || ((28 <=? c) && (c <=? 32))
  || (c =? 133) || (c =? 160) || (c =? 5760)
  || ((8192 <=? c) && (c <=? 8202))
  || (c =? 8232) || (c =? 8233) || (c =? 8239) || (c =? 8287)
  || (c =? 12288).

Fixpoint lstrip (t : text) : text :=
  match t with
  | c :: t' => if is_space c then lstrip t' else t
  | [] => []
  end.

Definition rstrip (t : text) : text := reverse (lstrip (reverse t)).

(** [t.strip()] *)
Definition strip (t : text) : text := rstrip (lstrip t).

(** The candidates [lo + k - 1, ..., lo] of [rfind], highest first. *)
Fixpoint rfind_from (t sub : text) (lo : Z) (k : nat) : Z :=
  match k with
  | O => -1
  | S k' =>
      let i := lo + Z.of_nat k' in
      if bool_decide (take (length sub) (drop (Z.to_nat i) t) = sub)
      then i else rfind_from t sub lo k'
  end.

(** [t.rfind(sub, start, end)]: the highest index [i] with
    [start <= i], [i + len(sub) <= end] and [t[i:i+len(sub)] == sub],
    or [-1]; the bounds are adjusted as CPython's [ADJUST_INDICES] does. *)
Definition rfind (t sub : text) (start end_ : Z) : Z :=
  let n := len t in
  let e := if n <? end_ then n
           else if end_ <? 0 then Z.max 0 (end_ + n) else end_ in
  let s := if start <? 0 then Z.max 0 (start + n) else start in
  if e - s <? len sub then -1
  else rfind_from t sub s (Z.to_nat (e - s - len sub + 1)).

End Py.

Import Py.

(** ** document_processor.py: [TextSplitter] *)

Module TextSplitter.

Record t := { chunk_size : Z; chunk_overlap : Z }.

(** [TextSplitter()]: the constructor's default arguments. *)
Definition defaults : t := {| chunk_size := 1000; chunk_overlap := 200 |}.

(** [sentence_endings = ['. ', '! ', '? ', '\n\n']] *)
Definition sentence_endings : list text :=
  [txt ". "; txt "! "; txt "? "; [10%N; 10%N]].

(** One pass of [for ending in sentence_endings] over [best_end]. *)
Definition consider_ending (text_ : text) (start end_ : Z)
    (best_end : Z) (ending : text) : Z :=
  let last_ending := rfind text_ ending start end_ in
  if (start <? last_ending)
     && (Z.abs (last_ending - end_) <? Z.abs (best_end - end_))
  then last_ending + len ending
  else best_end.

(** Lines 205-213: [best_end] after the loop over the endings. *)
Definition best_end (text_ : text) (start end_ : Z) : Z :=
  foldl (consider_ending text_ start end_) end_ sentence_endings.

(** Lines 200-213: the right edge of the window starting at [start]. *)
Definition window_end (self : t) (text_ : text) (start : Z) : Z :=
  let end_ := start + chunk_size self in
  if end_ <? len text_ then best_end text_ start end_ else end_.

(** The [while start < len(text)] loop.  [fuel] bounds the number of
    iterations; [None] means the bound was hit before the loop ended. *)
Fixpoint split_loop (fuel : nat) (self : t) (text_ : text)
    (start : Z) (chunks : list text) : option (list text) :=
  if start <? len text_ then
    match fuel with
    | O => None
    | S fuel' =>
        let end_ := window_end self text_ start in
        let chunk := strip (slice text_ start end_) in
        let chunks := match chunk with
                      | [] => chunks
                      | _ => chunks ++ [chunk]
                      end in
        split_loop fuel' self text_
          (Z.max (start + 1) (end_ - chunk_overlap self)) chunks
    end
  else Some chunks.

(** [split_text(self, text)].  [start] grows by at least one per
    iteration, so [len(text)] iterations always suffice
    (lemma [split_loop_total]). *)
Definition split_text (self : t) (text_ : text) : list text :=
  match text_ with
  | [] => []
  | _ => default [] (split_loop (length text_) self text_ 0 [])
  end.

(** The untrimmed windows [text[start:end]] the loop cuts, in order. *)
Fixpoint windows_from (fuel : nat) (self : t) (text_ : text)
    (start : Z) : list text :=
  if start <? len text_ then
    match fuel with
    | O => []
    | S fuel' =>
        let end_ := window_end self text_ start in
        slice text_ start end_
        :: windows_from fuel' self text_
             (Z.max (start + 1) (end_ - chunk_overlap self))
    end
  else [].

Definition windows (self : t) (text_ : text) : list text :=
  windows_from (length text_) self text_ 0.

(** The reading of "concatenating the non-overlapping portions of
    consecutive chunks" used for the reconstruction property: the first
    chunk whole, every later chunk without its first [overlap]
    characters (the part it shares with its predecessor). *)
Definition non_overlapping (overlap : Z) (chunks : list text) : text :=
  match chunks with
  | [] => []
  | c :: rest => c ++ concat (drop (Z.to_nat overlap) <$> rest)
  end.

End TextSplitter.

(** ** Exceptions, values, documents *)

(** The exception classes the code raises or catches.  [RequestException]
    stands for [requests.RequestException] and all of its subclasses (the
    connection error and the time-out of [requests], and the [HTTPError]
    of [raise_for_status]); [ConnectionError] is the builtin. *)
Inductive exn_class :=
  | RequestException | ConnectionError
  | ValueError | TypeError | IndexError | AttributeError
  | ZeroDivisionError | DuplicateIDError | OtherException.

Global Instance exn_class_eq_dec : EqDecision exn_class.
Proof. solve_decision. Defined.

(** An exception object: its class and [str(e)]. *)
Record exn := Exn { exn_cls : exn_class; exn_msg : text }.

(** The outcome of a call: a value, or a raised exception. *)
Inductive result (A : Type) :=
  | Ok (a : A)
  | Raise (e : exn).
Arguments Ok {A} a.
Arguments Raise {A} e.

Definition is_ok {A} (r : result A) : bool :=
  match r with Ok _ => true | Raise _ => false end.

(** Embedding vectors and distances: Python floats, taken as exact
    rationals. *)
Definition vector := list Q.

(** The values a metadata dictionary holds here. *)
Inductive value :=
  | VStr (s : text)
  | VInt (n : Z)
  | VFloat (x : Q)
  | VList (v : vector).

(** [bool(v)] *)
Definition truthy (v : value) : bool :=
  match v with
  | VStr s => negb (bool_decide (s = []))
  | VInt n => negb (n =? 0)
  | VFloat x => negb (Qeq_bool x 0)
  | VList v => match v with [] => false | _ => true end
  end.

Abbreviation metadata_t := (gmap string value).

(** [document_processor.Document]: the three attributes. *)
Record Document := {
  content : text;
  metadata : metadata_t;
  source : option value;
}.

(** ** The world outside the process *)

Inductive endpoint := ApiEmbeddings | ApiGenerate.

Global Instance endpoint_eq_dec : EqDecision endpoint.
Proof. solve_decision. Defined.

(** The JSON payload of a POST to the Ollama service. *)
Record request := {
  req_endpoint : endpoint;
  req_model : text;
  req_prompt : text;
  req_stream : bool;
}.

(** An HTTP response: the status code and the two fields of the JSON body
    the client reads ([None]: the field is absent). *)
Record response := {
  status_code : Z;
  json_embedding : option vector;
  json_response : option text;
}.

Inductive http_outcome :=
  | PostRaises (e : exn)          (* [requests.post] raises *)
  | PostReturns (r : response).

(** What the process does to the outside, in order. *)
Inductive event :=
  | EvPost (r : request)          (* [requests.post] *)
  | EvSleep (seconds : Z)         (* [time.sleep] *)
  | EvTime.                       (* [time.time] *)

(** The environment: everything the code calls and does not define.  The
    HTTP service and the clock answer as a function of the history. *)
Record env := {
  http : list event -> request -> http_outcome;
  clock : list event -> Q;
  (** [os.path.getsize(source) if os.path.exists(source) else 0] *)
  file_size : value -> result Z;
  (** [hashlib.md5(s.encode('utf-8')).hexdigest()] *)
  md5_hexdigest : text -> text;
  (** [str(x)] of a float *)
  float_str : Q -> text;
  (** the embedding function of the Chroma collection, applied to the
      documents of an [add] or [update] that passes no embeddings *)
  embedding_function : text -> vector;
}.

(** ** The Chroma collection (external library)

    [chromadb] is not part of the repository.  The collection is modelled
    after the library's documented behaviour, as far as the code relies on
    it: records are kept in insertion order, ids are validated on every
    call that takes ids (a non-empty list without duplicates), [add] leaves
    records whose id exists untouched, [update] ignores unknown ids, and a
    call without embeddings embeds the documents with the collection's
    embedding function.  Dimension and metadata-type validation are not
    modelled. *)
Module Chroma.

Record record := {
  r_id : text;
  r_document : text;
  r_metadata : metadata_t;
  r_embedding : vector;
}.

Abbreviation collection := (list record).

Definition ids_of (c : collection) : list text := r_id <$> c.

Definition has_id (c : collection) (i : text) : bool :=
  bool_decide (i ∈ ids_of c).

(** [validate_ids] *)
Definition validate_ids (ids : list text) : result unit :=
  match ids with
  | [] => Raise (Exn ValueError (txt "Expected IDs to be a non-empty list"))
  | _ => if bool_decide (NoDup ids) then Ok tt
         else Raise (Exn DuplicateIDError (txt "Expected IDs to be unique"))
  end.

(** [collection.get(ids=ids)['ids']] *)
Definition get (c : collection) (ids : list text) : result (list text) :=
  match validate_ids ids with
  | Raise e => Raise e
  | Ok _ => Ok (filter (fun i => i ∈ ids) (ids_of c))
  end.

(** The records of one [add]: ids already present are left out. *)
Fixpoint new_records (ef : text -> vector) (c : collection)
    (ids documents : list text) (metadatas : list metadata_t)
    (embeddings : option (list vector)) : list record :=
  match ids, documents, metadatas with
  | i :: ids', d :: documents', m :: metadatas' =>
      let e := match embeddings with
               | Some (e :: _) => e
               | _ => ef d
               end in
      let rest := new_records ef c ids' documents' metadatas'
                    (tail <$> embeddings) in
      if has_id c i then rest
      else {| r_id := i; r_document := d; r_metadata := m;
              r_embedding := e |} :: rest
  | _, _, _ => []
  end.

(** [collection.add(ids=, documents=, metadatas=, embeddings=)] *)
Definition add (ef : text -> vector) (c : collection)
    (ids documents : list text) (metadatas : list metadata_t)
    (embeddings : option (list vector)) : result collection :=
  match validate_ids ids with
  | Raise e => Raise e
  | Ok _ =>
      if (length documents =? length ids)%nat
         && (length metadatas =? length ids)%nat
         && match embeddings with
            | Some es => (length es =? length ids)%nat
            | None => true
            end
      then Ok (c ++ new_records ef c ids documents metadatas embeddings)
      else Raise (Exn ValueError (txt "Unequal lengths"))
  end.

(** One id of [collection.update]. *)
Definition update_one (ef : text -> vector) (i d : text) (m : metadata_t)
    (r : record) : record :=
  if bool_decide (r_id r = i)
  then {| r_id := i; r_document := d; r_metadata := m;
          r_embedding := ef d |}
  else r.

(** [collection.update(ids=[i], documents=[d], metadatas=[m])] *)
Definition update (ef : text -> vector) (c : collection)
    (i d : text) (m : metadata_t) : result collection :=
  Ok (update_one ef i d m <$> c).

(** [collection.delete(ids=ids)] *)
Definition delete (c : collection) (ids : list text) : result collection :=
  match validate_ids ids with
  | Raise e => Raise e
  | Ok _ => Ok (filter (fun r => r_id r ∉ ids) c)
  end.

(** [collection.count()] *)
Definition count (c : collection) : Z := len c.

(** Squared Euclidean distance, the collection's default space. *)
Fixpoint l2 (u v : vector) : Q :=
  match u, v with
  | x :: u', y :: v' => (x - y) * (x - y) + l2 u' v'
  | _, _ => 0
  end.

Fixpoint insert_by_distance (x : record * Q) (l : list (record * Q))
    : list (record * Q) :=
  match l with
  | [] => [x]
  | y :: l' => if Qle_bool (snd y) (snd x)
               then y :: insert_by_distance x l' else x :: l
  end.

(** The records nearest to [q], nearest first. *)
Definition nearest (c : collection) (q : vector) (k : nat)
    : list (record * Q) :=
  take k (foldr insert_by_distance []
            ((fun r => (r, l2 q (r_embedding r))) <$> c)).

(** A field of the dictionary a query returns: the key may be absent,
    hold [None], or hold one list per query embedding. *)
Inductive field (A : Type) :=
  | Missing
  | IsNone
  | Lists (l : list (list A)).
Arguments Missing {A}.
Arguments IsNone {A}.
Arguments Lists {A} l.

Record query_result := {
  q_documents : field text;
  q_metadatas : field (option metadata_t);
  q_distances : field Q;
}.

(** [collection.query(query_embeddings=[q], n_results=n)] *)
Definition query (c : collection) (q : vector) (n_results : Z)
    : result query_result :=
  if n_results <=? 0
  then Raise (Exn TypeError
                (txt "Number of requested results cannot be negative, or zero."))
  else
    let hits := nearest c q (Z.to_nat n_results) in
    Ok {| q_documents := Lists [(fun h => r_document (fst h)) <$> hits];
          q_metadatas := Lists [(fun h => Some (r_metadata (fst h))) <$> hits];
          q_distances := Lists [snd <$> hits] |}.

End Chroma.

(** ** State and exceptions *)

Abbreviation cache_dir := (gmap text (option vector)).

(** The mutable state: the history of outside calls, the records of the
    collection, and the cache directory (one file per key; [None] is a
    file that does not unpickle). *)
Record world := {
  log : list event;
  collection : Chroma.collection;
  cache : cache_dir;
}.

Definition M (A : Type) : Type := world -> result A * world.

Global Instance M_ret : MRet M := fun A a w => (Ok a, w).
Global Instance M_bind : MBind M := fun A B f m w =>
  match m w with
  | (Ok a, w') => f a w'
  | (Raise e, w') => (Raise e, w')
  end.

(** [raise e] *)
Definition raise {A} (e : exn) : M A := fun w => (Raise e, w).

(** A pure computation that may raise. *)
Definition lift {A} (r : result A) : M A := fun w => (r, w).

(** [try: m  except Exception as e: h(e)] *)
Definition try_except {A} (m : M A) (h : exn -> M A) : M A := fun w =>
  match m w with
  | (Ok a, w') => (Ok a, w')
  | (Raise e, w') => h e w'
  end.

(** The world after one more outside call. *)
Definition after (ev : event) (w : world) : world :=
  {| log := log w ++ [ev]; collection := collection w; cache := cache w |}.

Definition record_event (ev : event) : M unit := fun w => (Ok tt, after ev w).

Definition get_collection : M Chroma.collection := fun w => (Ok (collection w), w).

Definition set_collection (c : Chroma.collection) : M unit := fun w =>
  (Ok tt, {| log := log w; collection := c; cache := cache w |}).

Definition get_cache : M cache_dir := fun w => (Ok (cache w), w).

Definition set_cache (c : cache_dir) : M unit := fun w =>
  (Ok tt, {| log := log w; collection := collection w; cache := c |}).

(** A [for] loop that threads an accumulator. *)
Fixpoint for_each {A B} (l : list A) (acc : B) (body : B -> A -> M B) : M B :=
  match l with
  | [] => mret acc
  | x :: l' => acc' ← body acc x; for_each l' acc' body
  end.

(** [range(start, stop, step)] *)
Definition py_range (start stop step : Z) : result (list Z) :=
  if step =? 0
  then Raise (Exn ValueError (txt "range() arg 3 must not be zero"))
  else if 0 <? step
  then Ok ((fun k => start + Z.of_nat k * step)
             <$> seq 0 (Z.to_nat ((stop - start + step - 1) / step)))
  else Ok ((fun k => start + Z.of_nat k * step)
             <$> seq 0 (Z.to_nat ((start - stop - step - 1) / (- step)))).

Section WithEnv.
Variable E : env.

(** [time.time()] *)
Definition time_time : M Q := fun w =>
  (Ok (clock E (log w)), after EvTime w).

(** [time.sleep(seconds)] *)
Definition time_sleep (seconds : Z) : M unit := record_event (EvSleep seconds).

(** [requests.post(url, json=payload, timeout=...)] *)
Definition requests_post (r : request) : M response := fun w =>
  match http E (log w) r with
  | PostRaises e => (Raise e, after (EvPost r) w)
  | PostReturns resp => (Ok resp, after (EvPost r) w)
  end.

(** [response.raise_for_status()] *)
Definition raise_for_status (r : response) : M unit :=
  if (400 <=? status_code r) && (status_code r <? 600)
  then raise (Exn RequestException (txt "HTTPError"))
  else mret tt.

End WithEnv.

(** ** vector_store.py: [EmbeddingCache] *)

Module EmbeddingCache.
Section WithEnv.
Variable E : env.

Definition _get_cache_key (text_ : text) : text := md5_hexdigest E text_.

(** [get]: a file that does not unpickle is removed and counts as a miss. *)
Definition get (text_ : text) : M (option vector) :=
  files ← get_cache;
  match files !! _get_cache_key text_ with
  | Some (Some embedding) => mret (Some embedding)
  | Some None =>
      set_cache (delete (_get_cache_key text_) files);; mret None
  | None => mret None
  end.

(** [set] (a failing write is logged and swallowed; writes succeed here). *)
Definition set (text_ : text) (embedding : vector) : M unit :=
  files ← get_cache;
  set_cache (<[_get_cache_key text_ := Some embedding]> files).

(** [clear] *)
Definition clear : M unit := set_cache ∅.

End WithEnv.
End EmbeddingCache.

(** ** vector_store.py: [VectorStore] *)

Module VectorStore.
Section WithEnv.
Variable E : env.

(** [_generate_id]: [source + content] raises [TypeError] when the
    metadata's source is not a string. *)
Definition _generate_id (content_ : text) (metadata_ : metadata_t)
    : result text :=
  match default (VStr []) (metadata_ !! "source"%string) with
  | VStr source_ =>
      Ok (source_ ++ txt "_" ++ md5_hexdigest E (source_ ++ content_))
  | _ => Raise (Exn TypeError (txt "can only concatenate str"))
  end.

(** The body of [for doc in batch] (lines 87-97) over
    [(ids, texts, metadatas)]. *)
Definition collect_doc (acc : list text * list text * list metadata_t)
    (doc : Document) : M (list text * list text * list metadata_t) :=
  doc_id ← lift (_generate_id (content doc) (metadata doc));
  c ← get_collection;
  existing ← lift (Chroma.get c [doc_id]);
  match existing with
  | _ :: _ => mret acc
  | [] => mret (acc.1.1 ++ [doc_id], acc.1.2 ++ [content doc],
                acc.2 ++ [metadata doc])
  end.

(** The body of [for i in range(0, len(documents), batch_size)]
    (lines 79-113) over [total_added].  The [except] clause logs and
    raises again. *)
Definition add_batch (documents : list Document) (batch_size : Z)
    (total_added : Z) (i : Z) : M Z :=
  let batch := slice documents i (i + batch_size) in
  acc ← for_each batch ([], [], []) collect_doc;
  match acc.1.1 with
  | [] => mret total_added
  | _ :: _ =>
      c ← get_collection;
      c' ← lift (Chroma.add (embedding_function E) c
                   acc.1.1 acc.1.2 acc.2 None);
      set_collection c';;
      mret (total_added + len acc.1.1)
  end.

(** [add_documents(self, documents, batch_size=100)] *)
Definition add_documents (documents : list Document) (batch_size : Z) : M Z :=
  match documents with
  | [] => mret 0
  | _ :: _ =>
      idxs ← lift (py_range 0 (len documents) batch_size);
      for_each idxs 0 (add_batch documents batch_size)
  end.

(** [search_similar] without filters; the [except] clause raises again. *)
Definition search_similar (query_embedding : vector) (n_results : Z)
    : M Chroma.query_result :=
  c ← get_collection;
  lift (Chroma.query c query_embedding n_results).

(** [delete_documents] *)
Definition delete_documents (ids : list text) : M bool :=
  try_except
    (c ← get_collection;
     c' ← lift (Chroma.delete c ids);
     set_collection c';;
     mret true)
    (fun _ => mret false).

(** [update_document] *)
Definition update_document (doc_id : text) (document : Document) : M bool :=
  try_except
    (c ← get_collection;
     c' ← lift (Chroma.update (embedding_function E) c doc_id
                  (content document) (metadata document));
     set_collection c';;
     mret true)
    (fun _ => mret false).

(** [get_document_count] *)
Definition get_document_count : M Z :=
  c ← get_collection; mret (Chroma.count c).

(** [clear_collection]: the collection is deleted and created anew. *)
Definition clear_collection : M bool :=
  set_collection [];; mret true.

(** The calls that change the collection. *)
Inductive operation :=
  | AddDocuments (documents : list Document) (batch_size : Z)
  | UpdateDocument (doc_id : text) (document : Document)
  | DeleteDocuments (ids : list text)
  | ClearCollection.

Definition run (op : operation) : M unit :=
  match op with
  | AddDocuments documents batch_size =>
      add_documents documents batch_size;; mret tt
  | UpdateDocument doc_id document => update_document doc_id document;; mret tt
  | DeleteDocuments ids => delete_documents ids;; mret tt
  | ClearCollection => clear_collection;; mret tt
  end.

(** The world a call leaves behind, whether it returns or raises. *)
Definition state_after (op : operation) (w : world) : world := (run op w).2.

End WithEnv.

(** The ids of the live records. *)
Definition live_ids (w : world) : list text := Chroma.ids_of (collection w).

(** Two chunks that carry the same (source, content) pair. *)
Definition same_pair (d d' : Document) : Prop :=
  content d = content d'
  /\ metadata d !! "source"%string = metadata d' !! "source"%string.

End VectorStore.

(** ** rag_engine.py: [OllamaClient] *)

Module OllamaClient.
Section WithEnv.
Variable E : env.

(** [isinstance(e, exceptions)] *)
Definition is_instance (exceptions : list exn_class) (e : exn) : bool :=
  bool_decide (exn_cls e ∈ exceptions).

(** The loop of the [retry] package ([retry.api.__retry_internal],
    external): call [f]; on one of [exceptions], give up when no try is
    left, else sleep [delay], multiply the delay by [backoff] and try
    again.  [retries_left] is [_tries - 1]. *)
Fixpoint retry_internal {A} (f : M A) (exceptions : list exn_class)
    (retries_left : nat) (delay backoff : Z) : M A :=
  fun w =>
    match f w with
    | (Ok a, w') => (Ok a, w')
    | (Raise e, w') =>
        if is_instance exceptions e then
          match retries_left with
          | O => (Raise e, w')
          | S n =>
              (time_sleep delay;;
               retry_internal f exceptions n (delay * backoff) backoff) w'
          end
        else (Raise e, w')
    end.

(** [@retry(exceptions=..., tries=..., delay=..., backoff=...)] for a
    positive number of tries. *)
Definition retry {A} (exceptions : list exn_class) (tries : positive)
    (delay backoff : Z) (f : M A) : M A :=
  retry_internal f exceptions (Pos.to_nat tries - 1) delay backoff.

(** [exceptions=(requests.RequestException, ConnectionError)] *)
Definition transient : list exn_class := [RequestException; ConnectionError].

(** The payload of a POST to [/api/embeddings]. *)
Definition embeddings_payload (text_ model : text) : request :=
  {| req_endpoint := ApiEmbeddings; req_model := model;
     req_prompt := text_; req_stream := false |}.

(** The payload of a POST to [/api/generate]. *)
Definition generate_payload (prompt model : text) (stream : bool) : request :=
  {| req_endpoint := ApiGenerate; req_model := model;
     req_prompt := prompt; req_stream := stream |}.

(** The decorated body of [generate_embedding] (lines 46-71); both
    [except] clauses log and raise again. *)
Definition generate_embedding_once (text_ model : text) : M vector :=
  response_ ← requests_post E (embeddings_payload text_ model);
  raise_for_status response_;;
  match json_embedding response_ with
  | Some (x :: embedding) => mret (x :: embedding)
  | _ => raise (Exn ValueError
                  [21709; 24212; 20013; 27809; 26377; 23884; 20837; 21521;
                   37327]%N)
  end.

(** [generate_embedding(self, text, model)] *)
Definition generate_embedding (text_ model : text) : M vector :=
  retry transient 3 1 2
    (generate_embedding_once text_ model).

(** The decorated body of [generate_text] (lines 87-113), without extra
    keyword arguments. *)
Definition generate_text_once (prompt model : text) (stream : bool) : M text :=
  response_ ← requests_post E (generate_payload prompt model stream);
  raise_for_status response_;;
  mret (default [] (json_response response_)).

(** [generate_text(self, prompt, model, stream=False)] *)
Definition generate_text (prompt model : text) (stream : bool) : M text :=
  retry transient 3 1 2
    (generate_text_once prompt model stream).

End WithEnv.
End OllamaClient.

(** ** rag_engine.py: [RAGEngine]

    Logging has no counterpart here; this includes the three statements
    [self.logger.info(".2f"] of the source, which report elapsed times. *)

Module RAGEngine.

(** The configuration entries the engine reads. *)
Record config := {
  cache_enabled : bool;
  embedding_model : text;
  generation_model : text;
}.

(** The entries of [retrieved_documents]. *)
Record retrieved_document := {
  rd_content : text;
  rd_source : option value;
  rd_similarity_score : Q;
  rd_metadata : metadata_t;
}.

(** The dictionary [query] returns. *)
Record query_result := {
  question : text;
  answer : text;
  retrieved_documents : list retrieved_document;
  processing_time : Q;
}.

(** The fixed answer of [query] when nothing passes the threshold. *)
Definition no_information_answer : text :=
  [25265; 27465; 65292; 30693; 35782; 24211; 20013; 27809; 26377; 25214;
   21040; 30456; 20851; 20449; 24687; 12290]%N.

(** The prefix of the answer of [query] when generation fails. *)
Definition generation_error_prefix : text :=
  [29983; 25104; 22238; 31572; 26102; 21457; 29983; 38169; 35823; 58; 32]%N.

Definition unknown_source : text := [26410; 30693; 26469; 28304]%N.

Definition default_system_prompt : text :=
  [20320; 26159; 19968; 20010; 19987; 19994; 30340; 30693; 35782; 24211;
   21161; 25163; 12290; 35831; 26681; 25454; 25552; 20379; 30340; 19978;
   19979; 25991; 20869; 23481; 22238; 31572; 29992; 25143; 30340; 38382;
   39064; 12290; 10; 10; 35268; 21017; 65306; 10; 49; 46; 32; 22522; 20110;
   19978; 19979; 25991; 20869; 23481; 22238; 31572; 65292; 19981; 35201;
   32534; 36896; 20449; 24687; 10; 50; 46; 32; 22914; 26524; 19978; 19979;
   25991; 27809; 26377; 30456; 20851; 20449; 24687; 65292; 35831; 26126;
   30830; 35828; 26126; 10; 51; 46; 32; 22238; 31572; 35201; 20934; 30830;
   12289; 31616; 27905; 12289; 26377; 26465; 29702; 10; 52; 46; 32; 24341;
   29992; 26469; 28304; 26102; 26631; 27880; 25991; 26723; 32534; 21495]%N.

(** [sep.join(parts)] *)
Fixpoint join (sep : text) (parts : list text) : text :=
  match parts with
  | [] => []
  | [p] => p
  | p :: rest => p ++ sep ++ join sep rest
  end.

(** The expression of line 287:
    [1.0 / (1.0 + distance) if distance else 1.0]. *)
Definition similarity_score (distance : Q) : result Q :=
  if Qeq_bool distance 0 then Ok 1%Q
  else if Qeq_bool (1 + distance) 0
  then Raise (Exn ZeroDivisionError (txt "float division by zero"))
  else Ok (1 / (1 + distance))%Q.

(** [results.get(key, [[]])[0]] *)
Definition first_of {A} (f : Chroma.field A) : result (list A) :=
  match f with
  | Chroma.Missing => Ok []
  | Chroma.IsNone =>
      Raise (Exn TypeError (txt "'NoneType' object is not subscriptable"))
  | Chroma.Lists [] => Raise (Exn IndexError (txt "list index out of range"))
  | Chroma.Lists (x :: _) => Ok x
  end.

(** [xs or [d] * n] *)
Definition or_repeat {A} (xs : list A) (d : A) (n : nat) : list A :=
  match xs with [] => replicate n d | _ :: _ => xs end.

Section WithEnv.
Variable E : env.
Variable cfg : config.

(** [Document.__init__] *)
Definition new_Document (content_ : text) (metadata_ : metadata_t)
    (source_ : option value) : M Document :=
  match source_ with
  | Some src =>
      if truthy src then
        size ← lift (file_size E src);
        mret {| content := content_;
                metadata := <["file_size"%string := VInt size]>
                              (<["source"%string := src]> metadata_);
                source := source_ |}
      else mret {| content := content_; metadata := metadata_;
                   source := source_ |}
  | None => mret {| content := content_; metadata := metadata_;
                    source := source_ |}
  end.

(** The body of the loop of lines 281-294 over [documents]. *)
Definition parse_hit (documents : list (Document * Q))
    (hit : text * (option metadata_t * Q)) : M (list (Document * Q)) :=
  similarity ← lift (similarity_score hit.2.2);
  match hit.2.1 with
  | None => raise (Exn AttributeError
                     (txt "'NoneType' object has no attribute 'get'"))
  | Some metadata_ =>
      doc ← new_Document hit.1 metadata_ (metadata_ !! "source"%string);
      mret (documents ++ [(doc, similarity)])
  end.

(** Lines 279-294: from the dictionary of the store to scored documents. *)
Definition parse_results (results : Chroma.query_result)
    : M (list (Document * Q)) :=
  match Chroma.q_documents results with
  | Chroma.Lists ((d :: ds) :: _) =>
      let n := length (d :: ds) in
      metadatas ← lift (first_of (Chroma.q_metadatas results));
      distances ← lift (first_of (Chroma.q_distances results));
      for_each
        (zip (d :: ds)
             (zip (or_repeat metadatas (Some ∅) n)
                  (or_repeat distances 0%Q n)))
        [] parse_hit
  | _ => mret []
  end.

(** [search_documents(self, query, n_results)] without filters *)
Definition search_documents (query_ : text) (n_results : Z)
    : M (list (Document * Q)) :=
  start_time ← time_time E;
  query_embedding ←
    OllamaClient.generate_embedding E query_ (embedding_model cfg);
  results ← VectorStore.search_similar query_embedding n_results;
  documents ← parse_results results;
  end_time ← time_time E;
  mret documents.

Definition format_value (v : value) : text :=
  match v with
  | VStr s => s
  | VInt n => txt (pretty n)
  | VFloat x => float_str E x
  | VList v => txt "[" ++ join (txt ", ") (float_str E <$> v) ++ txt "]"
  end.

(** One entry of [context_parts] (line 326). *)
Definition context_part (i : nat) (doc : Document) : text :=
  let source_ := default (VStr unknown_source)
                   (metadata doc !! "source"%string) in
  [25991; 26723; 32]%N ++ txt (pretty (Z.of_nat i + 1))
  ++ [32; 40; 26469; 28304; 58; 32]%N ++ format_value source_
  ++ txt "):" ++ [10%N] ++ content doc.

Definition full_prompt (system_prompt query_ : text)
    (context_documents : list Document) : text :=
  system_prompt
  ++ [10; 10; 19978; 19979; 25991; 20449; 24687; 65306; 10]%N
  ++ join [10%N; 10%N] (imap context_part context_documents)
  ++ [10; 10; 29992; 25143; 38382; 39064; 65306]%N ++ query_
  ++ [10; 10; 35831; 22522; 20110; 20197; 19978; 19978; 19979; 25991; 22238;
      31572; 65306]%N.

(** [generate_answer(self, query, context_documents)] with the default
    system prompt; the [except] clause logs and raises again. *)
Definition generate_answer (query_ : text) (context_documents : list Document)
    : M text :=
  start_time ← time_time E;
  answer_ ← OllamaClient.generate_text E
    (full_prompt default_system_prompt query_ context_documents)
    (generation_model cfg) false;
  end_time ← time_time E;
  mret answer_.

(** [query(self, question, n_results=5, min_similarity=0.0)] *)
Definition query (question_ : text) (n_results : Z) (min_similarity : Q)
    : M query_result :=
  search_results ← search_documents question_ n_results;
  let filtered_results :=
    filter (fun r : Document * Q => Qle_bool min_similarity r.2 = true)
           search_results in
  match filtered_results with
  | [] =>
      mret {| question := question_;
              answer := no_information_answer;
              retrieved_documents := [];
              processing_time := 0 |}
  | _ :: _ =>
      start_time ← time_time E;
      answer_ ← try_except
        (generate_answer question_ (fst <$> filtered_results))
        (fun e => mret (generation_error_prefix ++ exn_msg e));
      end_time ← time_time E;
      mret {| question := question_;
              answer := answer_;
              retrieved_documents :=
                (fun r : Document * Q =>
                   {| rd_content := content r.1;
                      rd_source := source r.1;
                      rd_similarity_score := r.2;
                      rd_metadata := metadata r.1 |}) <$> filtered_results;
              processing_time := (end_time - start_time)%Q |}
  end.

(** [doc.metadata['embedding'] = embedding] *)
Definition with_embedding (doc : Document) (embedding : vector) : Document :=
  {| content := content doc;
     metadata := <["embedding"%string := VList embedding]> (metadata doc);
     source := source doc |}.

(** Lines 225-241: embed one document on a cache miss; a failure drops the
    document. *)
Definition embed_new (embedded_documents : list Document) (doc : Document)
    : M (list Document) :=
  try_except
    (embedding ← OllamaClient.generate_embedding E (content doc)
                   (embedding_model cfg);
     (if cache_enabled cfg
      then EmbeddingCache.set E (content doc) embedding else mret tt);;
     mret (embedded_documents ++ [with_embedding doc embedding]))
    (fun _ => mret embedded_documents).

(** The body of [for doc in all_documents] (lines 216-241). *)
Definition embed_doc (embedded_documents : list Document) (doc : Document)
    : M (list Document) :=
  if cache_enabled cfg then
    cached_embedding ← EmbeddingCache.get E (content doc);
    match cached_embedding with
    | Some (x :: v) =>
        mret (embedded_documents ++ [with_embedding doc (x :: v)])
    | _ => embed_new embedded_documents doc
    end
  else embed_new embedded_documents doc.

(** [add_documents], from the chunk list [all_documents] on (lines
    212-248); the loading and chunking of the paths (lines 186-210) goes
    through the file system and is not part of the model. *)
Definition add_documents (all_documents : list Document) : M Z :=
  start_time ← time_time E;
  embedded_documents ← for_each all_documents [] embed_doc;
  added_count ← VectorStore.add_documents E embedded_documents 100;
  end_time ← time_time E;
  mret added_count.

End WithEnv.
End RAGEngine.

(** ** Concrete scenarios *)

Module Scenario.

Definition is_post (ev : event) : bool :=
  match ev with EvPost _ => true | _ => false end.


(** The number of POSTs in a history. *)
Definition posts (l : list event) : nat :=
  length (filter (fun ev => is_post ev = true) l).



Definition connection_refused : exn :=
  Exn RequestException (txt "connection refused").

Definition good_response : response :=
  {| status_code := 200;
     json_embedding := Some [1%Q; 0%Q];
     json_response := Some (txt "an answer") |}.

(** An environment around a given HTTP service; the digest is a stand-in
    (the identity), files have size 0, the clock stands still. *)
Definition env_with (service : list event -> request -> http_outcome) : env :=
  {| http := service;
     clock := fun _ => 0%Q;
     file_size := fun _ => Ok 0;
     md5_hexdigest := fun s => s;
     float_str := fun _ => txt "0.0";
     embedding_function := fun _ => [0%Q; 0%Q] |}.

(** The service answers every POST. *)
Definition healthy : env := env_with (fun _ _ => PostReturns good_response).

(** The service refuses every connection. *)
Definition down : env := env_with (fun _ _ => PostRaises connection_refused).

(** The first two POSTs fail with a transport error, later ones succeed. *)
Definition flaky : env :=
  env_with (fun l _ => if (posts l <? 2)%nat
                       then PostRaises connection_refused
                       else PostReturns good_response).

(** The service answers with a body that has no ["embedding"] field. *)
Definition no_embedding : env :=
  env_with (fun _ _ => PostReturns {| status_code := 200;
                                      json_embedding := None;
                                      json_response := None |}).

(** Embeddings work, generation is refused. *)
Definition generation_down : env :=
  env_with (fun _ r => match req_endpoint r with
                       | ApiEmbeddings => PostReturns good_response
                       | ApiGenerate => PostRaises connection_refused
                       end).

Definition empty_world : world :=
  {| log := []; collection := []; cache := ∅ |}.

Definition cfg : RAGEngine.config :=
  {| RAGEngine.cache_enabled := true;
     RAGEngine.embedding_model := txt "nomic-embed-text";
     RAGEngine.generation_model := txt "llama3" |}.

(** A chunk as the ingestion pipeline hands it to the store. *)
Definition chunk (source_ content_ : text) (embedding : vector) : Document :=
  {| content := content_;
     metadata := {[ "source"%string := VStr source_;
                    "embedding"%string := VList embedding ]};
     source := Some (VStr source_) |}.

(** A store holding one record, at squared distance [1] from the vector
    [good_response] carries. *)
Definition one_record_world : world :=
  {| log := [];
     collection := [ {| Chroma.r_id := txt "pets.txt_pets.txtcat";
                        Chroma.r_document := txt "cat";
                        Chroma.r_metadata := {[ "source"%string := VStr (txt "pets.txt") ]};
                        Chroma.r_embedding := [0%Q; 0%Q] |} ];
     cache := ∅ |}.

(** What a search returns from a world, or nothing when it raises. *)
Definition hits_of (r : result (list (Document * Q)) * world)
    : list (Document * Q) :=
  match r.1 with Ok docs => docs | Raise _ => [] end.

(** A chunk before ingestion has computed its embedding. *)
Definition bare_chunk (source_ content_ : text) : Document :=
  {| content := content_;
     metadata := {[ "source"%string := VStr source_ ]};
     source := Some (VStr source_) |}.

Definition two_chunks : list Document :=
  [chunk (txt "pets.txt") (txt "cat") [1%Q; 0%Q];
   chunk (txt "pets.txt") (txt "dog") [0%Q; 1%Q]].

(** The same two (source, content) pairs, embedded anew. *)
Definition two_chunks_again : list Document :=
  [chunk (txt "pets.txt") (txt "cat") [1%Q; 1%Q];
   chunk (txt "pets.txt") (txt "dog") [0%Q; 2%Q]].

(** The same chunk twice in one call. *)
Definition twin_chunks : list Document :=
  [chunk (txt "pets.txt") (txt "cat") [1%Q; 0%Q];
   chunk (txt "pets.txt") (txt "cat") [1%Q; 0%Q]].


End Scenario.

(** ** document_processor.py: [TextSplitter.split_document] *)

Module SplitDocument.
Section WithEnv.
Variable E : env.

(** [chunk_metadata = document.metadata.copy()] followed by
    [chunk_metadata.update({...})] (lines 241-246). *)
Definition chunk_metadata (document : Document) (i total : nat) (chunk : text)
    : metadata_t :=
  <["chunk_size"%string := VInt (len chunk)]>
    (<["total_chunks"%string := VInt (Z.of_nat total)]>
       (<["chunk_index"%string := VInt (Z.of_nat i)]> (metadata document))).

(** The body of [for i, chunk in enumerate(chunks)] (lines 240-252) over
    [result]; [total] is [len(chunks)]. *)
Definition make_chunk (document : Document) (total : nat)
    (result_ : list Document) (indexed : nat * text) : M (list Document) :=
  doc ← RAGEngine.new_Document E indexed.2
          (chunk_metadata document indexed.1 total indexed.2)
          (source document);
  mret (result_ ++ [doc]).

(** [split_document(self, document)] *)
Definition split_document (self : TextSplitter.t) (document : Document)
    : M (list Document) :=
  let chunks := TextSplitter.split_text self (content document) in
  for_each (zip (seq 0 (length chunks)) chunks) []
           (make_chunk document (length chunks)).

End WithEnv.
End SplitDocument.

(** ** config.py: [AppConfig.validate] *)

Module AppConfig.

(** The three settings [validate] reads. *)
Record t := {
  base_url : text;
  similarity_threshold : Q;
  logging_level : text;
}.

(** [s.startswith(prefix)] *)
Definition startswith (s prefix : text) : bool :=
  bool_decide (take (length prefix) s = prefix).

Definition valid_levels : list text :=
  [txt "DEBUG"; txt "INFO"; txt "WARNING"; txt "ERROR"; txt "CRITICAL"].

Definition url_error : text :=
  txt "Ollama base_url " ++ [24517; 39035; 20197]%N ++ txt " http:// "
  ++ [25110]%N ++ txt " https:// " ++ [24320; 22836]%N.

Definition threshold_error : text :=
  [30456; 20284; 24230; 38408; 20540; 24517; 39035; 22312]%N ++ txt " 0-1 "
  ++ [20043; 38388]%N.

Definition level_error : text :=
  [26085; 24535; 32423; 21035; 24517; 39035; 26159; 20197; 19979; 20043;
   19968; 58; 32]%N ++ RAGEngine.join (txt ", ") valid_levels.

Section WithUpper.
(** [str.upper], a builtin. *)
Variable upper : text -> text.

(** [validate(self)]: the list of error messages, in the order of the
    checks. *)
Definition validate (self : t) : list text :=
  let errors := [] in
  let errors :=
    if negb (startswith (base_url self) (txt "http://")
             || startswith (base_url self) (txt "https://"))
    then errors ++ [url_error] else errors in
  let errors :=
    if negb (Qle_bool 0 (similarity_threshold self)
             && Qle_bool (similarity_threshold self) 1)
    then errors ++ [threshold_error] else errors in
  let errors :=
    if negb (bool_decide (upper (logging_level self) ∈ valid_levels))
    then errors ++ [level_error] else errors in
  errors.

End WithUpper.

(** [AppConfig()]: the defaults of the three settings. *)
Definition defaults : t :=
  {| base_url := txt "http://localhost:11434";
     similarity_threshold := 7 # 10;
     logging_level := txt "INFO" |}.

End AppConfig.

(** ** embedders.py: [OllamaDirectEmbedder] *)

Module OllamaDirectEmbedder.

(** The embedder carries its model ([base_url] and [timeout] are fixed in
    the environment). *)
Record t := { model : text }.

Section WithEnv.
Variable E : env.

(** [generate_embedding(self, text)]: the decorator and the body are those
    of [OllamaClient.generate_embedding], with the model taken from
    [self]. *)
Definition generate_embedding (self : t) (text_ : text) : M vector :=
  OllamaClient.retry OllamaClient.transient 3 1 2
    (OllamaClient.generate_embedding_once E text_ (model self)).

(** [generate_embeddings(self, texts)] *)
Definition generate_embeddings (self : t) (texts : list text)
    : M (list vector) :=
  for_each texts []
    (fun embeddings text_ =>
       embedding ← generate_embedding self text_;
       mret (embeddings ++ [embedding])).

End WithEnv.
End OllamaDirectEmbedder.

(** ** Readings used in the further properties *)

Module Reading.

(** A computation that makes at most [n] POSTs. *)
Definition posts_at_most {A} (n : nat) (m : M A) : Prop :=
  forall w r w', m w = (r, w') ->
    exists evs, log w' = log w ++ evs /\ (Scenario.posts evs <= n)%nat.




(** The same service as [Scenario.flaky], failing with HTTP status 503. *)
Definition overloaded : env :=
  Scenario.env_with
    (fun l _ => if (Scenario.posts l <? 2)%nat
                then PostReturns {| status_code := 503;
                                    json_embedding := None;
                                    json_response := None |}
                else PostReturns {| status_code := 200;
                                    json_embedding := None;
                                    json_response := None |}).

(** A world whose cache holds a file that does not unpickle. *)
Definition corrupt_cache_world : world :=
  {| log := []; collection := []; cache := {[ txt "cat" := None ]} |}.

End Reading.

(* ================================================================= *)
(** * Properties *)

(** ** The chunker *)

Section Chunker.
Import TextSplitter.

Implicit Types (self : TextSplitter.t) (t w : text) (s : Z).

Lemma len_nonneg {A} (l : list A) : 0 <= len l.
Proof. unfold len. lia. Qed.

(** Slices with non-negative bounds are a [take] of a [drop]. *)
Lemma slice_nonneg {A} (l : list A) i j :
  0 <= i -> 0 <= j ->
  slice l i j = take (Z.to_nat (j - i)) (drop (Z.to_nat i) l).
Proof.
  intros Hi Hj. unfold slice, adjust, len.
  destruct (Z.ltb_spec i 0); [lia|]. destruct (Z.ltb_spec j 0); [lia|].
  destruct (Z_lt_le_dec i (Z.of_nat (length l))) as [Hlt|Hge].
  - rewrite -> (Z.min_l i) by lia.
    destruct (Z_lt_le_dec j (Z.of_nat (length l))).
    + by rewrite -> (Z.min_l j) by lia.
    + rewrite -> (Z.min_r j) by lia.
      rewrite !take_ge; [done | rewrite length_drop; lia ..].
  - rewrite -> (Z.min_r i) by lia.
    rewrite -> !drop_ge by lia. by rewrite !take_nil.
Qed.

(** The comparison [abs(last_ending - end) < abs(best_end - end)] starts
    from [best_end = end], that is from distance [0]: no candidate can
    be strictly nearer, so [best_end] never moves. *)
Lemma consider_ending_keeps t s e ending :
  consider_ending t s e e ending = e.
Proof.
  unfold consider_ending. rewrite Z.sub_diag.
  assert ((Z.abs (rfind t ending s e - e) <? Z.abs 0) = false) as ->
    by (apply Z.ltb_ge; simpl; lia).
  by rewrite andb_false_r.
Qed.

Lemma best_end_hard_cut t s e : best_end t s e = e.
Proof.
  unfold best_end.
  induction sentence_endings as [|x l IH]; [done|].
  simpl. by rewrite consider_ending_keeps.
Qed.

Lemma window_end_hard_cut self t s :
  window_end self t s = s + chunk_size self.
Proof.
  unfold window_end. case_match; [apply best_end_hard_cut | done].
Qed.

(** The accumulator only ever grows at its end. *)
Lemma split_loop_acc fuel self t s acc :
  split_loop fuel self t s acc = (acc ++.) <$> split_loop fuel self t s [].
Proof.
  revert s acc. induction fuel as [|fuel IH]; intros s acc; simpl.
  - case_match; [done | simpl; by rewrite app_nil_r].
  - case_match; [| simpl; by rewrite app_nil_r].
    destruct (strip _) as [|c cs] eqn:Hc; [apply IH|].
    rewrite (IH _ (acc ++ [c :: cs])), (IH _ ([] ++ [c :: cs])).
    rewrite <- option_fmap_compose. apply option_fmap_ext.
    intros r. simpl. by rewrite <- app_assoc.
Qed.

(** The loop terminates: [start] grows by at least one per iteration. *)
Lemma split_loop_total fuel self t s acc :
  (len t - s <= Z.of_nat fuel) -> is_Some (split_loop fuel self t s acc).
Proof.
  revert s acc. induction fuel as [|fuel IH]; intros s acc Hf; simpl.
  - destruct (Z.ltb_spec s (len t)); [lia | done].
  - destruct (Z.ltb_spec s (len t)); [| done].
    apply IH. lia.
Qed.

(** The chunks are the trimmed windows, the empty ones dropped. *)
Lemma split_loop_windows fuel self t s :
  (len t - s <= Z.of_nat fuel) ->
  split_loop fuel self t s [] =
    Some (filter (fun c : text => c <> []) (strip <$> windows_from fuel self t s)).
Proof.
  revert s. induction fuel as [|fuel IH]; intros s Hf; simpl.
  - destruct (Z.ltb_spec s (len t)); [lia | done].
  - destruct (Z.ltb_spec s (len t)); [| done].
    rewrite split_loop_acc, IH; [|lia]. simpl.
    destruct (strip _) as [|c cs] eqn:Hc.
    + rewrite filter_cons_False by (by intros []). done.
    + rewrite filter_cons_True by done. done.
Qed.

Lemma split_text_windows self t :
  split_text self t =
    filter (fun c : text => c <> []) (strip <$> windows self t).
Proof.
  unfold split_text, windows. destruct t as [|c t]; [done|].
  rewrite split_loop_windows; [done|]. unfold len. lia.
Qed.

Lemma split_loop_done fuel self t s acc :
  len t <= s -> split_loop fuel self t s acc = Some acc.
Proof.
  intros H. destruct fuel; simpl; destruct (Z.ltb_spec s (len t)); (lia || done).
Qed.

Lemma windows_from_step fuel self t s :
  s < len t ->
  windows_from (S fuel) self t s =
    slice t s (s + chunk_size self)
    :: windows_from fuel self t
         (Z.max (s + 1) (s + chunk_size self - chunk_overlap self)).
Proof.
  intros H. simpl. destruct (Z.ltb_spec s (len t)); [|lia].
  by rewrite window_end_hard_cut.
Qed.

Lemma windows_from_done fuel self t s :
  len t <= s -> windows_from fuel self t s = [].
Proof.
  intros H. destruct fuel; simpl; destruct (Z.ltb_spec s (len t)); (lia || done).
Qed.

(** *** Trimming *)

Lemma lstrip_suffix w : exists p, w = p ++ lstrip w.
Proof.
  induction w as [|c w [p IH]]; [by exists []|]. simpl.
  destruct (is_space c); [| by exists []].
  exists (c :: p). simpl. by rewrite <- IH.
Qed.

Lemma rstrip_prefix w : exists q, w = rstrip w ++ q.
Proof.
  unfold rstrip. destruct (lstrip_suffix (reverse w)) as [p Hp].
  exists (reverse p). rewrite <- reverse_app, <- Hp. by rewrite reverse_involutive.
Qed.

Lemma strip_fixed w : strip w = w -> lstrip w = w /\ rstrip w = w.
Proof.
  unfold strip. intros H.
  destruct (lstrip_suffix w) as [p Hp].
  destruct (rstrip_prefix (lstrip w)) as [q Hq].
  assert (length p = 0%nat /\ length q = 0%nat) as [H1 H2].
  { apply (f_equal length) in Hp, Hq. rewrite H in Hq.
    rewrite length_app in Hp, Hq. lia. }
  destruct p; [|done]. simpl in Hp. rewrite <- Hp in *. done.
Qed.

Lemma lstrip_head c w : is_space c = false -> lstrip (c :: w) = c :: w.
Proof. intros H. simpl. by rewrite H. Qed.

Lemma lstrip_fixed_head c w : lstrip (c :: w) = c :: w -> is_space c = false.
Proof.
  simpl. destruct (is_space c); [|done]. intros H.
  destruct (lstrip_suffix w) as [p Hp].
  apply (f_equal length) in H, Hp. rewrite length_app in Hp. simpl in H. lia.
Qed.

Lemma rstrip_fixed_iff w : rstrip w = w <-> lstrip (reverse w) = reverse w.
Proof.
  unfold rstrip. split; intros H.
  - rewrite <- H at 2. by rewrite reverse_involutive.
  - rewrite H. apply reverse_involutive.
Qed.

(** A text whose leading window and one non-empty tail are trimmed is
    itself trimmed. *)
Lemma strip_whole t n k :
  (0 < n)%nat -> drop k t <> [] ->
  strip (take n t) = take n t -> strip (drop k t) = drop k t ->
  strip t = t.
Proof.
  intros Hn Hk [Hl _]%strip_fixed [_ Hr]%strip_fixed.
  assert (lstrip t = t) as Hlt.
  { destruct t as [|c t]; [done|]. destruct n; [lia|]. simpl take in Hl.
    apply lstrip_head. by apply lstrip_fixed_head in Hl. }
  assert (rstrip t = t) as Hrt.
  { apply rstrip_fixed_iff. apply rstrip_fixed_iff in Hr.
    rewrite <- (take_drop k t), reverse_app.
    destruct (reverse (drop k t)) as [|c r] eqn:Hrev.
    - apply (f_equal reverse) in Hrev. rewrite reverse_involutive in Hrev. done.
    - simpl. apply lstrip_fixed_head in Hr. by rewrite Hr. }
  unfold strip. by rewrite Hlt.
Qed.

(** *** Windows under a sane configuration ([0 <= overlap < size]) *)

Lemma drop_take_slice {A} (l : list A) (a b : nat) :
  drop a (take b l) = take (b - a) (drop a l).
Proof.
  revert a b. induction l as [|x l IH]; intros a b.
  - by rewrite take_nil, !drop_nil, take_nil.
  - destruct b.
    + simpl. by rewrite drop_nil.
    + destruct a; [done|]. simpl. apply IH.
Qed.

Lemma windows_overlap_concat fuel self t s :
  0 <= chunk_overlap self < chunk_size self -> 0 <= s ->
  len t - s <= Z.of_nat fuel ->
  concat (drop (Z.to_nat (chunk_overlap self)) <$> windows_from fuel self t s)
  = drop (Z.to_nat (s + chunk_overlap self)) t.
Proof.
  intros Hc. revert s. induction fuel as [|fuel IH]; intros s Hs Hf.
  - rewrite windows_from_done by lia. simpl.
    rewrite drop_ge; [done|]. unfold len in Hf. lia.
  - destruct (Z_lt_le_dec s (len t)) as [Hlt|Hge].
    + rewrite windows_from_step by done.
      rewrite fmap_cons. simpl concat. rewrite IH by lia.
      rewrite slice_nonneg by lia. rewrite drop_take_slice, drop_drop.
      replace (Z.to_nat (Z.max (s + 1) (s + chunk_size self - chunk_overlap self)
                         + chunk_overlap self))
        with (Z.to_nat s + Z.to_nat (chunk_overlap self)
              + (Z.to_nat (s + chunk_size self - s) - Z.to_nat (chunk_overlap self)))%nat
        by lia.
      rewrite <- (drop_drop t _ (Z.to_nat s + Z.to_nat (chunk_overlap self))).
      rewrite take_drop. f_equal. lia.
    + rewrite windows_from_done by lia. simpl.
      rewrite drop_ge; [done|]. unfold len in Hge. lia.
Qed.

Lemma windows_nonempty fuel self t s :
  0 < chunk_size self -> 0 <= s ->
  Forall (fun w => w <> []) (windows_from fuel self t s).
Proof.
  intros Hc. revert s. induction fuel as [|fuel IH]; intros s Hs.
  - simpl. by case_match.
  - destruct (Z_lt_le_dec s (len t)) as [Hlt|Hge].
    + rewrite windows_from_step by done. constructor; [|apply IH; lia].
      rewrite slice_nonneg by lia. intros E%(f_equal length).
      rewrite length_take, length_drop in E. simpl in E.
      unfold len in Hlt. lia.
    + by rewrite windows_from_done.
Qed.

Lemma windows_reach_end fuel self t s :
  0 <= chunk_overlap self < chunk_size self -> 0 <= s < len t ->
  len t - s <= Z.of_nat fuel ->
  exists k, drop k t <> [] /\ drop k t ∈ windows_from fuel self t s.
Proof.
  intros Hc. revert s. induction fuel as [|fuel IH]; intros s Hs Hf; [lia|].
  rewrite windows_from_step by lia.
  destruct (Z_lt_le_dec (s + chunk_size self) (len t)) as [Hlt|Hge].
  - destruct (IH (Z.max (s + 1) (s + chunk_size self - chunk_overlap self)))
      as (k & Hk & Hin); [lia | lia |].
    exists k. split; [done|]. by apply list_elem_of_further.
  - exists (Z.to_nat s). rewrite slice_nonneg by lia.
    rewrite take_ge by (rewrite length_drop; unfold len in Hge; lia).
    split; [|apply list_elem_of_here].
    intros E%(f_equal length). rewrite length_drop in E. simpl in E.
    unfold len in Hs. lia.
Qed.

Lemma filter_all {A} (P : A -> Prop) `{forall x, Decision (P x)} (l : list A) :
  Forall P l -> filter P l = l.
Proof.
  induction 1 as [|x l Hx _ IH]; [done|].
  rewrite filter_cons_True by done. by rewrite IH.
Qed.

(** *** The claims about [split_text] *)

(** C3. The specification lets a sentence delimiter inside the window move
    the chunk boundary to just after it.  The code never moves the
    boundary: every window ends at the hard cut [start + chunk_size].
    With [chunk_size = 6] the text ["Hi. abcdefgh"] has [". "] at index
    [2] of its first window, and the first chunk is still ["Hi. ab"]. *)
Theorem split_text_keeps_hard_cut :
  (forall self t s, window_end self t s = s + chunk_size self) /\
  rfind (txt "Hi. abcdefgh") (txt ". ") 0 6 = 2 /\
  split_text {| chunk_size := 6; chunk_overlap := 0 |} (txt "Hi. abcdefgh")
  = [txt "Hi. ab"; txt "cdefgh"].
Proof.
  split; [apply window_end_hard_cut|]. split; by vm_compute.
Qed.

(** C5, as stated, fails at two kinds of input: a blank text gives no chunk
    at all, and a text no longer than [chunk_size] but longer than
    [chunk_size - chunk_overlap] is split in two. *)
Lemma split_text_short_counterexample :
  let self := {| chunk_size := 10; chunk_overlap := 5 |} in
  (len (txt "   ") <= chunk_size self /\
   split_text self (txt "   ") <> [strip (txt "   ")]) /\
  (len (txt "abcdefgh") <= chunk_size self /\
   split_text self (txt "abcdefgh") <> [strip (txt "abcdefgh")]).
Proof. by vm_compute. Qed.

Example split_text_empty self : split_text self [] = [].
Proof. done. Qed.

Example short_text_two_chunks :
  split_text {| chunk_size := 10; chunk_overlap := 5 |} (txt "abcdefgh")
  = [txt "abcdefgh"; txt "fgh"].
Proof. by vm_compute. Qed.

(** C5, amended.  A text that is no longer than [chunk_size] and ends
    before the next window start [max(1, chunk_size - chunk_overlap)]
    gives the single chunk [t.strip()], or no chunk when [t.strip()] is
    empty. *)
Theorem split_text_short self t :
  len t <= chunk_size self ->
  len t <= Z.max 1 (chunk_size self - chunk_overlap self) ->
  split_text self t = match strip t with [] => [] | c => [c] end.
Proof.
  intros Hcs Hnext. destruct t as [|c t]; [done|].
  unfold split_text.
  change (length (c :: t)) with (S (length t)).
  remember (c :: t) as u eqn:Hu.
  assert (0 < len u) by (subst u; unfold len; simpl; lia).
  simpl. destruct (Z.ltb_spec 0 (len u)); [|lia].
  rewrite window_end_hard_cut, split_loop_done by lia. simpl.
  rewrite slice_nonneg by lia.
  change (Z.to_nat 0) with 0%nat. rewrite drop_0.
  rewrite take_ge by (unfold len in Hcs; lia).
  by destruct (strip u).
Qed.

Lemma split_text_short_witness :
  let self := {| chunk_size := 10; chunk_overlap := 2 |} in
  len (txt " hello ") <= chunk_size self /\
  len (txt " hello ") <= Z.max 1 (chunk_size self - chunk_overlap self) /\
  split_text self (txt " hello ") = [txt "hello"].
Proof.
  assert (len (txt " hello ") <= 10) as H1 by (vm_compute; discriminate).
  assert (len (txt " hello ") <= Z.max 1 (10 - 2)) as H2
    by (vm_compute; discriminate).
  split; [exact H1|]. split; [exact H2|].
  exact (split_text_short {| chunk_size := 10; chunk_overlap := 2 |}
           (txt " hello ") H1 H2).
Defined.

(** C4, as stated, fails: chunks are trimmed, so white space at a chunk
    boundary is lost.  Without overlap the non-overlapping portions are
    the chunks themselves, and ["ab cd"] cut at size 3 comes back as
    ["abcd"]. *)
Lemma chunks_reconstruct_counterexample :
  ~ (forall self t,
       non_overlapping (chunk_overlap self) (split_text self t) = strip t).
Proof.
  intros H.
  specialize (H {| chunk_size := 3; chunk_overlap := 0 |} (txt "ab cd")).
  vm_compute in H. discriminate H.
Qed.

(** C4, amended.  With [0 <= chunk_overlap < chunk_size], and when
    trimming removes nothing from any window the splitter cuts (no window
    starts or ends with white space), concatenating the non-overlapping
    portions of the returned chunks reconstructs [t.strip()] exactly. *)
Theorem chunks_reconstruct self t :
  0 <= chunk_overlap self < chunk_size self ->
  Forall (fun w => strip w = w) (windows self t) ->
  non_overlapping (chunk_overlap self) (split_text self t) = strip t.
Proof.
  intros Hc Hw. rewrite split_text_windows.
  assert (strip <$> windows self t = windows self t) as ->.
  { rewrite <- (list_fmap_id (windows self t)) at 2. by apply Forall_fmap_ext. }
  rewrite filter_all by (apply windows_nonempty; lia).
  destruct t as [|c t]; [done|].
  remember (c :: t) as u eqn:Hu.
  assert (0 < len u) as Hpos by (subst u; unfold len; simpl; lia).
  assert (len u - 0 <= Z.of_nat (length u)) as Hfuel by (unfold len; lia).
  destruct (windows_reach_end (length u) self u 0 Hc) as (k & Hk & Hin);
    [lia | done |].
  unfold windows in *.
  assert (length u = S (length t)) as Hlen by (by subst u).
  rewrite Hlen in *. rewrite windows_from_step in * by done.
  apply Forall_cons in Hw as [Hw0 Hw].
  assert (strip (drop k u) = drop k u) as Hlast.
  { apply elem_of_cons in Hin as [->|Hin]; [done|].
    by eapply Forall_forall in Hw. }
  rewrite slice_nonneg in * by lia.
  rewrite Z.add_0_l, Z.sub_0_r in *.
  change (Z.to_nat 0) with 0%nat in *. rewrite drop_0 in *.
  unfold non_overlapping. rewrite windows_overlap_concat by (unfold len in *; lia).
  replace (Z.to_nat (Z.max (0 + 1) (chunk_size self - chunk_overlap self)
                     + chunk_overlap self))
    with (Z.to_nat (chunk_size self)) by lia.
  rewrite take_drop. symmetry.
  apply (strip_whole u (Z.to_nat (chunk_size self)) k); (done || lia).
Qed.

Lemma chunks_reconstruct_witness :
  let self := {| chunk_size := 4; chunk_overlap := 1 |} in
  non_overlapping 1 (split_text self (txt "abcdefghij")) = strip (txt "abcdefghij").
Proof.
  apply (chunks_reconstruct {| chunk_size := 4; chunk_overlap := 1 |}
           (txt "abcdefghij")).
  - simpl. lia.
  - vm_compute. repeat constructor.
Defined.

End Chunker.

(** ** Reasoning about the monad *)

Section Monad.
Context {A B : Type}.
Implicit Types (m : M A) (f : A -> M B) (w : world).

Lemma bind_ok m f w a w1 :
  m w = (Ok a, w1) -> (m ≫= f) w = f a w1.
Proof. intros H. unfold mbind, M_bind. by rewrite H. Qed.

Lemma bind_raise m f w e w1 :
  m w = (Raise e, w1) -> (m ≫= f) w = (Raise e, w1).
Proof. intros H. unfold mbind, M_bind. by rewrite H. Qed.


Lemma bind_raise_inv m f w e w' :
  (m ≫= f) w = (Raise e, w') ->
  m w = (Raise e, w') \/ exists a w1, m w = (Ok a, w1) /\ f a w1 = (Raise e, w').
Proof.
  unfold mbind, M_bind. destruct (m w) as [[a|e1] w1].
  - intros H. right. by exists a, w1.
  - intros [= -> ->]. by left.
Qed.

End Monad.


Lemma for_each_app {A B} (l1 l2 : list A) (acc : B) body w :
  for_each (l1 ++ l2) acc body w
  = (acc' ← for_each l1 acc body; for_each l2 acc' body) w.
Proof.
  revert acc w. induction l1 as [|x l1 IH]; intros acc w; [done|].
  simpl. unfold mbind, M_bind in *.
  destruct (body acc x w) as [[a|e] w1]; [apply IH | done].
Qed.

(** ** Similarity scores *)

Section Similarity.
Import RAGEngine.
Local Open Scope Q_scope.



Lemma similarity_score_reported d :
  ~ d == 0 -> ~ 1 + d == 0 -> similarity_score d = Ok (1 / (1 + d)).
Proof.
  intros H0 H1. unfold similarity_score.
  destruct (Qeq_bool d 0) eqn:Hd; [by apply Qeq_bool_iff in Hd|].
  destruct (Qeq_bool (1 + d) 0) eqn:Hd1; [by apply Qeq_bool_iff in Hd1|].
  done.
Qed.


Lemma similarity_score_total d : 0 <= d -> exists s, similarity_score d = Ok s.
Proof.
  intros Hd. unfold similarity_score.
  destruct (Qeq_bool d 0); [eauto|].
  destruct (Qeq_bool (1 + d) 0) eqn:H1; [|eauto].
  apply Qeq_bool_iff in H1. exfalso.
  assert (0 < 1 + d) as Hpos.
  { apply Qlt_le_trans with (1 + 0); [done|]. by apply Qplus_le_r. }
  rewrite H1 in Hpos. by apply Qlt_irrefl in Hpos.
Qed.




End Similarity.

(** ** The Ollama client: retries *)

Section Retry.
Import OllamaClient Scenario.
Variable E : env.

Lemma posts_app l1 l2 : posts (l1 ++ l2) = (posts l1 + posts l2)%nat.
Proof. unfold posts. by rewrite filter_app, length_app. Qed.

(** One attempt is one POST, whatever its outcome. *)
Lemma generate_embedding_once_post text_ model w :
  exists r, generate_embedding_once E text_ model w
            = (r, after (EvPost (embeddings_payload text_ model)) w).
Proof.
  unfold generate_embedding_once, mbind, M_bind, requests_post.
  destruct (http E (log w) _) as [e|resp]; [eauto|].
  unfold raise_for_status. destruct (_ && _); [eauto|]. simpl.
  destruct (json_embedding resp) as [[|x v]|]; eauto.
Qed.

Lemma generate_embedding_once_raises text_ model w e :
  http E (log w) (embeddings_payload text_ model) = PostRaises e ->
  generate_embedding_once E text_ model w
  = (Raise e, after (EvPost (embeddings_payload text_ model)) w).
Proof.
  intros H. unfold generate_embedding_once, mbind, M_bind, requests_post.
  by rewrite H.
Qed.

Lemma generate_embedding_once_returns text_ model w resp x v :
  http E (log w) (embeddings_payload text_ model) = PostReturns resp ->
  (400 <=? status_code resp) && (status_code resp <? 600) = false ->
  json_embedding resp = Some (x :: v) ->
  generate_embedding_once E text_ model w
  = (Ok (x :: v), after (EvPost (embeddings_payload text_ model)) w).
Proof.
  intros H Hs He. unfold generate_embedding_once, mbind, M_bind, requests_post.
  rewrite H. unfold raise_for_status. rewrite Hs. simpl. by rewrite He.
Qed.

Lemma generate_embedding_once_missing text_ model w resp :
  http E (log w) (embeddings_payload text_ model) = PostReturns resp ->
  (400 <=? status_code resp) && (status_code resp <? 600) = false ->
  json_embedding resp = None \/ json_embedding resp = Some [] ->
  exists e, exn_cls e = ValueError /\
    generate_embedding_once E text_ model w
    = (Raise e, after (EvPost (embeddings_payload text_ model)) w).
Proof.
  intros H Hs He. unfold generate_embedding_once, mbind, M_bind, requests_post.
  rewrite H. unfold raise_for_status. rewrite Hs. simpl.
  destruct He as [-> | ->]; (eexists; split; [|reflexivity]; done).
Qed.

(** The retry loop calls its body at most [retries_left + 1] times. *)
Lemma retry_internal_bound {A} (f : M A) p excs n delay backoff w r w' :
  (forall w, exists r, f w = (r, after (EvPost p) w)) ->
  retry_internal f excs n delay backoff w = (r, w') ->
  exists evs, log w' = log w ++ evs /\ (posts evs <= S n)%nat /\
              collection w' = collection w /\ cache w' = cache w.
Proof.
  intros Hf. revert delay w. induction n as [|n IH]; intros delay w; simpl;
    destruct (Hf w) as [r1 ->]; destruct r1 as [a|e].
  - intros [= <- <-]. by exists [EvPost p].
  - destruct (is_instance excs e); intros [= <- <-]; by exists [EvPost p].
  - intros [= <- <-]. exists [EvPost p]. simpl. repeat split; try done.
    unfold posts. simpl. lia.
  - destruct (is_instance excs e).
    + unfold mbind, M_bind, time_sleep, record_event.
      intros (evs & Hl & Hp & Hc & Hk)%IH.
      exists ([EvPost p; EvSleep delay] ++ evs). simpl in *.
      rewrite Hl, <- !app_assoc. repeat split; try done.
      change (EvPost p :: EvSleep delay :: evs)
        with ([EvPost p; EvSleep delay] ++ evs).
      rewrite posts_app. unfold posts at 1. simpl. lia.
    + intros [= <- <-]. exists [EvPost p]. simpl. repeat split; try done.
      unfold posts. simpl. lia.
Qed.

(** C8.  [generate_embedding] makes at most three attempts.  When the first
    two fail with a transient error and the third answers with a vector,
    the call sleeps 1 and then 2 seconds and returns that vector.  A
    well-formed response without the embedding fails with [ValueError]
    after a single attempt, without any sleep. *)
Theorem generate_embedding_retry text_ model w :
  let p := embeddings_payload text_ model in
  (exists r w' evs,
     generate_embedding E text_ model w = (r, w') /\
     log w' = log w ++ evs /\ (posts evs <= 3)%nat) /\
  (forall e1 e2 resp x v,
     http E (log w) p = PostRaises e1 -> exn_cls e1 ∈ transient ->
     http E (log w ++ [EvPost p; EvSleep 1]) p = PostRaises e2 ->
     exn_cls e2 ∈ transient ->
     http E (log w ++ [EvPost p; EvSleep 1; EvPost p; EvSleep 2]) p
       = PostReturns resp ->
     (400 <=? status_code resp) && (status_code resp <? 600) = false ->
     json_embedding resp = Some (x :: v) ->
     exists w', generate_embedding E text_ model w = (Ok (x :: v), w') /\
       log w' = log w ++ [EvPost p; EvSleep 1; EvPost p; EvSleep 2; EvPost p]) /\
  (forall resp,
     http E (log w) p = PostReturns resp ->
     (400 <=? status_code resp) && (status_code resp <? 600) = false ->
     json_embedding resp = None ->
     exists e w', generate_embedding E text_ model w = (Raise e, w') /\
       exn_cls e = ValueError /\ log w' = log w ++ [EvPost p]).
Proof.
  intros p. split; [|split].
  - destruct (generate_embedding E text_ model w) as [r w'] eqn:Hg.
    exists r, w'. unfold generate_embedding, retry in Hg.
    eapply retry_internal_bound in Hg as (evs & Hl & Hp & _);
      [|apply generate_embedding_once_post].
    exists evs. repeat split; first [done | simpl in Hp; lia].
  - intros e1 e2 resp x v H1 Ht1 H2 Ht2 H3 Hs He.
    unfold generate_embedding, retry. simpl.
    rewrite (generate_embedding_once_raises _ _ _ _ H1).
    unfold is_instance. rewrite bool_decide_eq_true_2 by done.
    unfold mbind, M_bind, time_sleep, record_event. simpl.
    rewrite (generate_embedding_once_raises _ _ _ e2)
      by (simpl; by rewrite <- app_assoc).
    rewrite bool_decide_eq_true_2 by done. simpl.
    erewrite generate_embedding_once_returns;
      [| simpl; rewrite <- !app_assoc; exact H3 | done | done].
    eexists. split; [done|]. simpl. by rewrite <- !app_assoc.
  - intros resp H Hs He.
    destruct (generate_embedding_once_missing text_ model w resp H Hs)
      as (e & Hcls & Hrun); [by left|].
    exists e. eexists. unfold generate_embedding, retry. simpl.
    rewrite Hrun. unfold is_instance.
    rewrite bool_decide_eq_false_2; [done|].
    rewrite Hcls. unfold transient. rewrite !elem_of_cons, elem_of_nil.
    intros [?|[?|[]]]; discriminate.
Qed.

End Retry.

Lemma generate_embedding_retry_witness :
  (exists w',
     OllamaClient.generate_embedding Scenario.flaky (txt "cat")
       (txt "nomic-embed-text") Scenario.empty_world
     = (Ok [1%Q; 0%Q], w') /\
     log w' =
       let p := OllamaClient.embeddings_payload (txt "cat")
                  (txt "nomic-embed-text") in
       [EvPost p; EvSleep 1; EvPost p; EvSleep 2; EvPost p]) /\
  (exists e w',
     OllamaClient.generate_embedding Scenario.no_embedding (txt "cat")
       (txt "nomic-embed-text") Scenario.empty_world
     = (Raise e, w') /\
     exn_cls e = ValueError /\
     log w' = [EvPost (OllamaClient.embeddings_payload (txt "cat")
                         (txt "nomic-embed-text"))]).
Proof.
  split.
  - apply (proj1 (proj2 (generate_embedding_retry Scenario.flaky (txt "cat")
                           (txt "nomic-embed-text") Scenario.empty_world))
             Scenario.connection_refused Scenario.connection_refused
             Scenario.good_response 1%Q [0%Q]);
      try reflexivity; apply list_elem_of_here.
  - apply (proj2 (proj2 (generate_embedding_retry Scenario.no_embedding
                           (txt "cat") (txt "nomic-embed-text")
                           Scenario.empty_world))
             {| status_code := 200; json_embedding := None;
                json_response := None |});
      reflexivity.
Defined.

(** ** The query pipeline *)

Section Query.
Import OllamaClient RAGEngine Scenario.
Variable E : env.
Variable cfg : config.













Lemma filter_none {A} (P : A -> Prop) `{forall x, Decision (P x)} (l : list A) :
  Forall (fun x => ~ P x) l -> filter P l = [].
Proof.
  induction 1 as [|x l Hx _ IH]; [done|]. by rewrite filter_cons_False.
Qed.




(** C1, the part that holds.  Whenever the retrieval step returns, [query]
    returns a result for the question asked, also when generation fails:
    the exception of [generate_answer] becomes the answer text.  An
    exception of the retrieval step leaves [query] as it is. *)
Theorem query_returns question_ n_results min_similarity w :
  (forall docs w1,
     search_documents E cfg question_ n_results w = (Ok docs, w1) ->
     exists res w2,
       query E cfg question_ n_results min_similarity w = (Ok res, w2) /\
       question res = question_ /\
       forall r rest e w3,
         filter (fun r : Document * Q => Qle_bool min_similarity r.2 = true) docs
           = r :: rest ->
         generate_answer E cfg question_ (fst <$> r :: rest) (after EvTime w1)
           = (Raise e, w3) ->
         answer res = generation_error_prefix ++ exn_msg e) /\
  (forall e w1,
     search_documents E cfg question_ n_results w = (Raise e, w1) ->
     query E cfg question_ n_results min_similarity w = (Raise e, w1)).
Proof.
  split.
  - intros docs w1 Hsearch. unfold query. rewrite (bind_ok _ _ _ _ _ Hsearch).
    destruct (filter _ docs) as [|r0 rest0] eqn:Hf.
    + eexists _, _. split; [done|]. split; [done|]. intros; discriminate.
    + unfold mbind, M_bind, time_time, try_except. simpl.
      destruct (generate_answer E cfg question_ _ (after EvTime w1))
        as [[ans|e] w3] eqn:Hgen.
      * eexists _, _. split; [done|]. split; [done|].
        intros r rest e w4 [= <- <-] Hraise. congruence.
      * simpl. eexists _, _. split; [done|]. split; [done|].
        intros r rest e' w4 [= <- <-] Hraise. simpl. congruence.
  - intros e w1 Hsearch. unfold query. by rewrite (bind_raise _ _ _ _ _ Hsearch).
Qed.

End Query.


(** C1, as stated, fails: when the embedding service refuses the
    connection, the three attempts of [generate_embedding] are used up
    inside [search_documents], which [query] calls outside any [try], and
    the exception leaves [query]. *)
Lemma query_never_raises_counterexample :
  ~ (forall E cfg question_ n_results min_similarity w,
       exists res w',
         RAGEngine.query E cfg question_ n_results min_similarity w
         = (Ok res, w')).
Proof.
  intros H.
  destruct (H Scenario.down Scenario.cfg (txt "dog?") 5 0%Q
              Scenario.empty_world) as (res & w' & Hq).
  vm_compute in Hq. discriminate Hq.
Qed.

(** A failing vector-store search leaves [query] in the same way. *)
Example query_search_failure_propagates :
  exists e w',
    RAGEngine.query Scenario.healthy Scenario.cfg (txt "dog?") 0 0%Q
      Scenario.empty_world = (Raise e, w') /\ exn_cls e = TypeError.
Proof. eexists _, _. split; [by vm_compute | done]. Qed.

Lemma query_returns_witness :
  let run := RAGEngine.search_documents Scenario.generation_down Scenario.cfg
               (txt "cat?") 5 Scenario.one_record_world in
  exists res w2,
    RAGEngine.query Scenario.generation_down Scenario.cfg (txt "cat?") 5 0%Q
      Scenario.one_record_world = (Ok res, w2) /\
    RAGEngine.question res = txt "cat?" /\
    forall r rest e w3,
      filter (fun r : Document * Q => Qle_bool 0 r.2 = true)
             (Scenario.hits_of run) = r :: rest ->
      RAGEngine.generate_answer Scenario.generation_down Scenario.cfg
        (txt "cat?") (fst <$> r :: rest) (after EvTime run.2) = (Raise e, w3) ->
      RAGEngine.answer res = RAGEngine.generation_error_prefix ++ exn_msg e.
Proof.
  intros run.
  assert (run = (Ok (Scenario.hits_of run), run.2)) as Hrun by (by vm_compute).
  exact (proj1 (query_returns Scenario.generation_down Scenario.cfg
                  (txt "cat?") 5 0%Q Scenario.one_record_world)
           (Scenario.hits_of run) run.2 Hrun).
Defined.

(** With generation refused, the answer of [query] is the error text. *)
Example query_generation_failure_answer :
  exists res w',
    RAGEngine.query Scenario.generation_down Scenario.cfg (txt "cat?") 5 0%Q
      Scenario.one_record_world = (Ok res, w') /\
    RAGEngine.answer res
    = RAGEngine.generation_error_prefix ++ txt "connection refused" /\
    length (RAGEngine.retrieved_documents res) = 1%nat.
Proof. eexists _, _. split; [by vm_compute | done]. Qed.

(** ** The vector store *)

Section Store.
Import VectorStore.
Variable E : env.

Implicit Types (c : Chroma.collection) (w : world) (doc : Document).

Lemma chroma_get_one c i :
  Chroma.get c [i] = Ok (filter (fun j => j ∈ [i]) (Chroma.ids_of c)).
Proof.
  unfold Chroma.get, Chroma.validate_ids.
  rewrite bool_decide_eq_true_2; [done|]. apply NoDup_singleton.
Qed.

Lemma chroma_get_one_nil c i :
  filter (fun j => j ∈ [i]) (Chroma.ids_of c) = [] <-> i ∉ Chroma.ids_of c.
Proof.
  split.
  - intros H Hin. eapply (filter_nil_not_elem_of _ _ i); [exact H | | done].
    apply list_elem_of_here.
  - intros H. apply filter_none, Forall_forall.
    intros j Hj ->%list_elem_of_singleton. done.
Qed.

(** The records of an [add] without embeddings, when no id is taken. *)
Lemma new_records_fresh c ids texts metas :
  length texts = length ids -> length metas = length ids ->
  Forall (fun i => i ∉ Chroma.ids_of c) ids ->
  Chroma.ids_of (Chroma.new_records (embedding_function E) c ids texts metas None)
    = ids /\
  Forall (fun r => Chroma.r_embedding r
                   = embedding_function E (Chroma.r_document r))
         (Chroma.new_records (embedding_function E) c ids texts metas None).
Proof.
  revert texts metas. induction ids as [|i ids IH]; intros texts metas Ht Hm Hf.
  - by destruct texts, metas.
  - destruct texts as [|d texts]; [done|]. destruct metas as [|m metas]; [done|].
    apply Forall_cons in Hf as [Hi Hf].
    destruct (IH texts metas) as [IH1 IH2]; [simpl in *; lia .. | done |].
    simpl. unfold Chroma.has_id. rewrite bool_decide_eq_false_2 by done.
    split.
    + unfold Chroma.ids_of in *. simpl. f_equal. exact IH1.
    + by constructor.
Qed.

(** What the loop body does with one document: nothing to the world. *)
Lemma collect_doc_run acc doc w :
  collect_doc E acc doc w =
    match _generate_id E (content doc) (metadata doc) with
    | Raise e => (Raise e, w)
    | Ok i =>
        if bool_decide (i ∈ live_ids w) then (Ok acc, w)
        else (Ok (acc.1.1 ++ [i], acc.1.2 ++ [content doc],
                  acc.2 ++ [metadata doc]), w)
    end.
Proof.
  unfold collect_doc, mbind, M_bind, lift, get_collection.
  destruct (_generate_id E _ _) as [i|e]; [|done].
  rewrite chroma_get_one.
  destruct (filter _ _) as [|j l] eqn:Hf.
  - apply chroma_get_one_nil in Hf. by rewrite bool_decide_eq_false_2.
  - rewrite bool_decide_eq_true_2; [done|].
    destruct (decide (i ∈ live_ids w)) as [|Hn]; [done|].
    apply chroma_get_one_nil in Hn. unfold live_ids in *. congruence.
Qed.

Lemma collect_spec batch acc w r w' :
  for_each batch acc (collect_doc E) w = (r, w') ->
  w' = w /\
  forall acc', r = Ok acc' ->
    exists ids texts metas,
      acc' = (acc.1.1 ++ ids, acc.1.2 ++ texts, acc.2 ++ metas) /\
      length texts = length ids /\ length metas = length ids /\
      Forall (fun i => i ∉ live_ids w) ids /\
      Forall (fun doc => exists i,
                _generate_id E (content doc) (metadata doc) = Ok i /\
                (i ∈ live_ids w \/ i ∈ ids)) batch.
Proof.
  revert acc. induction batch as [|doc batch IH]; intros acc; simpl.
  - intros [= <- <-]. split; [done|]. intros acc' [= <-].
    exists [], [], []. rewrite !app_nil_r. by destruct acc as [[? ?] ?].
  - unfold mbind, M_bind. rewrite collect_doc_run.
    destruct (_generate_id E _ _) as [i|e] eqn:Hid;
      [|intros [= <- <-]; by split].
    case_bool_decide as Hin.
    + intros [-> Hrest]%IH. split; [done|]. intros acc' ->.
      destruct (Hrest _ eq_refl) as (ids & texts & metas & -> & ? & ? & ? & Hall).
      exists ids, texts, metas. repeat split; try done.
      constructor; [by eauto|done].
    + intros [-> Hrest]%IH. split; [done|]. intros acc' ->.
      destruct (Hrest _ eq_refl) as (ids & texts & metas & -> & ? & ? & ? & Hall).
      exists (i :: ids), (content doc :: texts), (metadata doc :: metas).
      simpl. rewrite <- !app_assoc. repeat split; try done; try (f_equal; done).
      * by constructor.
      * constructor.
        -- exists i. split; [done|]. right. apply list_elem_of_here.
        -- eapply Forall_impl; [exact Hall|]. intros d (k & ? & [?|?]); eauto.
           exists k. split; [done|]. right. by apply list_elem_of_further.
Qed.

(** A batch whose ids are all in the store is skipped whole. *)
Lemma collect_covered batch acc w :
  Forall (fun doc => exists i,
            _generate_id E (content doc) (metadata doc) = Ok i /\
            i ∈ live_ids w) batch ->
  for_each batch acc (collect_doc E) w = (Ok acc, w).
Proof.
  induction 1 as [|doc batch (i & Hid & Hin) _ IH]; [done|]. simpl.
  unfold mbind, M_bind. rewrite collect_doc_run, Hid.
  by rewrite bool_decide_eq_true_2.
Qed.

Lemma world_eta w :
  {| log := log w; collection := collection w; cache := cache w |} = w.
Proof. by destruct w. Qed.

Lemma chroma_add_plain c i ids texts metas :
  length texts = length (i :: ids) -> length metas = length (i :: ids) ->
  Chroma.add (embedding_function E) c (i :: ids) texts metas None
  = if bool_decide (NoDup (i :: ids))
    then Ok (c ++ Chroma.new_records (embedding_function E) c (i :: ids)
                    texts metas None)
    else Raise (Exn DuplicateIDError (txt "Expected IDs to be unique")).
Proof.
  intros Ht Hm. unfold Chroma.add, Chroma.validate_ids.
  case_bool_decide; [|done]. by rewrite Ht, Hm, !Nat.eqb_refl.
Qed.

(** One batch: what it writes and what it returns. *)
Lemma add_batch_spec documents batch_size total i w r w' :
  add_batch E documents batch_size total i w = (r, w') ->
  log w' = log w /\ cache w' = cache w /\
  exists new,
    collection w' = collection w ++ new /\
    Forall (fun rec => Chroma.r_embedding rec
                       = embedding_function E (Chroma.r_document rec)) new /\
    NoDup (Chroma.ids_of new) /\
    Forall (fun k => k ∉ live_ids w) (Chroma.ids_of new) /\
    match r with
    | Ok n =>
        n = total + len new /\
        Forall (fun doc => exists k,
                  _generate_id E (content doc) (metadata doc) = Ok k /\
                  k ∈ live_ids w')
               (slice documents i (i + batch_size))
    | Raise _ => w' = w /\ new = []
    end.
Proof.
  unfold add_batch, mbind, M_bind.
  destruct (for_each _ _ (collect_doc E) w) as [[acc|e] w0] eqn:Hc;
    apply collect_spec in Hc as [-> Hacc].
  - destruct (Hacc _ eq_refl) as (ids & texts & metas & -> & Ht & Hm & Hfresh & Hall).
    clear Hacc. cbn [fst snd]. rewrite !app_nil_l. destruct ids as [|i0 ids].
    + intros [= <- <-]. do 2 (split; [done|]). exists [].
      rewrite app_nil_r. repeat split; try done; try constructor.
      * unfold len. simpl. lia.
      * eapply Forall_impl; [exact Hall|].
        intros d (k & ? & [?|?%elem_of_nil]); [eauto|done].
    + unfold get_collection, lift, set_collection.
      rewrite chroma_add_plain by done.
      case_bool_decide as Hnd; [|intros [= <- <-]; do 2 (split; [done|]);
        exists []; rewrite app_nil_r; repeat split; try done; constructor].
      destruct (new_records_fresh (collection w) (i0 :: ids) texts metas)
        as [Hids Hemb]; [done..|].
      remember (Chroma.new_records (embedding_function E) (collection w)
                  (i0 :: ids) texts metas None) as new eqn:Hnew.
      intros [= <- <-]. cbn [log cache collection]. do 2 (split; [done|]).
      exists new. split; [reflexivity|]. rewrite Hids.
      repeat split; try done.
      * unfold len. rewrite <- Hids. unfold Chroma.ids_of.
        by rewrite length_fmap.
      * eapply Forall_impl; [exact Hall|].
        intros d (k & ? & Hk). exists k. split; [done|].
        unfold live_ids. cbn [collection]. unfold Chroma.ids_of at 1.
        rewrite fmap_app, elem_of_app.
        destruct Hk as [?|?]; [by left|right].
        fold (Chroma.ids_of new). by rewrite Hids.
  - intros [= <- <-]. do 2 (split; [done|]). exists [].
    rewrite app_nil_r. repeat split; try done; constructor.
Qed.

Lemma add_batch_covered documents batch_size total i w :
  Forall (fun doc => exists k,
            _generate_id E (content doc) (metadata doc) = Ok k /\
            k ∈ live_ids w)
         (slice documents i (i + batch_size)) ->
  add_batch E documents batch_size total i w = (Ok total, w).
Proof.
  intros H. unfold add_batch, mbind, M_bind.
  by rewrite (collect_covered _ _ _ H).
Qed.

Lemma generate_id_same d d' :
  same_pair d d' ->
  _generate_id E (content d) (metadata d)
  = _generate_id E (content d') (metadata d').
Proof. intros [Hc Hs]. unfold _generate_id. by rewrite Hc, Hs. Qed.

Lemma slice_same_pairs (l l' : list Document) i j :
  Forall2 same_pair l l' -> Forall2 same_pair (slice l i j) (slice l' i j).
Proof.
  intros H. unfold slice, len. rewrite <- (Forall2_length _ _ _ H).
  by apply Forall2_take, Forall2_drop.
Qed.

(** Batches with the same (source, content) pairs give the same ids. *)
Lemma collect_same_pairs batch batch' acc acc' w :
  Forall2 same_pair batch batch' -> acc.1.1 = acc'.1.1 ->
  match (for_each batch acc (collect_doc E) w).1,
        (for_each batch' acc' (collect_doc E) w).1 with
  | Ok a, Ok a' => a.1.1 = a'.1.1
  | Raise e, Raise e' => e = e'
  | _, _ => False
  end.
Proof.
  intros H. revert acc acc'.
  induction H as [|d d' batch batch' Hd _ IH]; intros acc acc' Hacc; [done|].
  simpl. unfold mbind, M_bind. rewrite !collect_doc_run.
  rewrite <- (generate_id_same _ _ Hd).
  destruct (_generate_id E _ _) as [k|e]; [|done].
  case_bool_decide; apply IH; simpl; congruence.
Qed.

(** A batch that raises does so again, whatever has been counted so far,
    for any chunks with the same (source, content) pairs. *)
Lemma add_batch_replay documents documents' batch_size total total2 i w e w' :
  Forall2 same_pair documents documents' ->
  add_batch E documents batch_size total i w = (Raise e, w') ->
  add_batch E documents' batch_size total2 i w = (Raise e, w').
Proof.
  intros Hsame. unfold add_batch, mbind, M_bind.
  pose proof (collect_same_pairs _ _ ([], [], []) ([], [], []) w
                (slice_same_pairs _ _ i (i + batch_size) Hsame) eq_refl) as Hrel.
  destruct (for_each _ _ (collect_doc E) w) as [[acc|e0] w0] eqn:Hc;
    destruct (for_each (slice documents' _ _) _ (collect_doc E) w)
      as [[acc'|e0'] w0'] eqn:Hc'; simpl in Hrel; try done;
    apply collect_spec in Hc as [-> Hacc];
    apply collect_spec in Hc' as [-> Hacc'].
  - destruct (Hacc _ eq_refl) as (ids & texts & metas & -> & Ht & Hm & _).
    destruct (Hacc' _ eq_refl) as (ids' & texts' & metas' & -> & Ht' & Hm' & _).
    cbn [fst snd] in *. rewrite !app_nil_l in *. subst ids'.
    destruct ids as [|i0 ids]; [done|].
    unfold get_collection, lift, set_collection.
    rewrite !chroma_add_plain by done. by case_bool_decide.
  - by subst.
Qed.

(** The loop over the batches only appends records, each with the vector
    the collection computes for it, counts what it appends and keeps ids
    unique. *)
Lemma add_loop_spec documents batch_size idxs total w r w1 :
  for_each idxs total (add_batch E documents batch_size) w = (r, w1) ->
  log w1 = log w /\ cache w1 = cache w /\
  exists new,
    collection w1 = collection w ++ new /\
    Forall (fun rec => Chroma.r_embedding rec
                       = embedding_function E (Chroma.r_document rec)) new /\
    (NoDup (live_ids w) -> NoDup (live_ids w1)) /\
    (forall n, r = Ok n -> n = total + len new).
Proof.
  revert total w. induction idxs as [|i idxs IH]; intros total w; simpl.
  - intros [= <- <-]. do 2 (split; [done|]). exists [].
    rewrite app_nil_r. repeat split; try done.
    intros n [= <-]. unfold len. simpl. lia.
  - unfold mbind, M_bind.
    destruct (add_batch E documents batch_size total i w) as [[t|e] wa] eqn:Hb;
      apply add_batch_spec in Hb
        as (Hl & Hc & new & Hnew & Hemb & Hnd & Hfresh & Hr).
    + intros (Hl1 & Hc1 & new1 & Hnew1 & Hemb1 & Hnd1 & Hn1)%IH.
      split; [congruence|]. split; [congruence|].
      exists (new ++ new1). rewrite Hnew1, Hnew, <- app_assoc.
      split; [done|]. split; [by apply Forall_app|]. split.
      * intros Hw. apply Hnd1. unfold live_ids, Chroma.ids_of in *.
        rewrite Hnew, fmap_app. apply NoDup_app. repeat split; try done.
        intros k Hk Hk'. by eapply Forall_forall in Hfresh.
      * intros n Hn. apply Hn1 in Hn. destruct Hr as [-> _].
        unfold len in *. rewrite length_app. lia.
    + destruct Hr as [-> ->]. intros [= <- <-]. do 2 (split; [done|]).
      exists []. rewrite app_nil_r. by repeat split.
Qed.

Lemma covered_same_pairs (l l' : list Document) w :
  Forall2 same_pair l l' ->
  Forall (fun doc => exists k,
            _generate_id E (content doc) (metadata doc) = Ok k /\
            k ∈ live_ids w) l ->
  Forall (fun doc => exists k,
            _generate_id E (content doc) (metadata doc) = Ok k /\
            k ∈ live_ids w) l'.
Proof.
  induction 1 as [|d d' l l' Hd _ IH]; [done|].
  intros [(k & Hk & Hin) Hl]%Forall_cons. constructor; [|by apply IH].
  exists k. by rewrite <- (generate_id_same _ _ Hd).
Qed.

(** Running the loop again on the world it left, for chunks with the same
    (source, content) pairs, changes nothing. *)
Lemma add_loop_again documents documents' batch_size idxs total w r w1 :
  Forall2 same_pair documents documents' ->
  for_each idxs total (add_batch E documents batch_size) w = (r, w1) ->
  forall total2, exists r2,
    for_each idxs total2 (add_batch E documents' batch_size) w1 = (r2, w1) /\
    (is_ok r = true -> r2 = Ok total2).
Proof.
  intros Hsame.
  revert total w. induction idxs as [|i idxs IH]; intros total w; simpl.
  - intros [= <- <-] total2. by exists (Ok total2).
  - unfold mbind, M_bind.
    destruct (add_batch E documents batch_size total i w) as [[t|e] wa] eqn:Hb.
    + intros Hrest total2.
      apply add_batch_spec in Hb as (_ & _ & _ & _ & _ & _ & _ & _ & Hcov).
      destruct (add_loop_spec _ _ _ _ _ _ _ Hrest) as (_ & _ & new & Hnew & _).
      rewrite (add_batch_covered _ _ total2 i w1).
      * by apply IH with (total := t) (w := wa).
      * eapply covered_same_pairs; [by apply slice_same_pairs|].
        eapply Forall_impl; [exact Hcov|]. intros d (k & ? & Hk).
        exists k. split; [done|]. unfold live_ids, Chroma.ids_of in *.
        rewrite Hnew, fmap_app, elem_of_app. by left.
    + intros [= <- <-] total2. exists (Raise e).
      pose proof Hb as Hb'.
      apply add_batch_spec in Hb' as (_ & _ & _ & _ & _ & _ & _ & -> & _).
      rewrite (add_batch_replay _ _ _ _ total2 _ _ _ _ Hsame Hb). by split.
Qed.

(** [add_documents] only appends records, the vector of each is the one
    the collection's embedding function computes from the text, and the
    number returned is the number of records appended. *)
Lemma add_documents_spec documents batch_size w r w1 :
  add_documents E documents batch_size w = (r, w1) ->
  log w1 = log w /\ cache w1 = cache w /\
  exists new,
    collection w1 = collection w ++ new /\
    Forall (fun rec => Chroma.r_embedding rec
                       = embedding_function E (Chroma.r_document rec)) new /\
    (NoDup (live_ids w) -> NoDup (live_ids w1)) /\
    (forall n, r = Ok n -> n = len new).
Proof.
  unfold add_documents. destruct documents as [|d documents].
  - intros [= <- <-]. do 2 (split; [done|]). exists [].
    rewrite app_nil_r. repeat split; try done. by intros n [= <-].
  - unfold mbind at 1, M_bind at 1, lift.
    destruct (py_range _ _ _) as [idxs|e].
    + intros (? & ? & new & ? & ? & ? & Hn)%add_loop_spec.
      do 2 (split; [done|]). exists new. do 3 (split; [done|]).
      intros n Hr. apply Hn in Hr. lia.
    + intros [= <- <-]. do 2 (split; [done|]). exists [].
      rewrite app_nil_r. by repeat split.
Qed.

(** The id is a function of the source and the content alone. *)
Lemma generate_id_deterministic content_ (m m' : metadata_t) :
  m !! "source"%string = m' !! "source"%string ->
  _generate_id E content_ m = _generate_id E content_ m'.
Proof. intros H. unfold _generate_id. by rewrite H. Qed.

(** C6.  Ingesting the same (source, content) pairs a second time changes
    nothing: the first ingestion only appended records (existing ones are
    left as they are) and returned their number; the second one finds every
    id in the store, leaves the world and so the record count as they were,
    and, when the first returned, returns 0. *)
Theorem ingestion_idempotent documents documents' batch_size w r1 w1 :
  Forall2 same_pair documents documents' ->
  add_documents E documents batch_size w = (r1, w1) ->
  (exists new, collection w1 = collection w ++ new /\
               forall n, r1 = Ok n -> n = len new) /\
  exists r2 w2,
    add_documents E documents' batch_size w1 = (r2, w2) /\
    w2 = w1 /\
    get_document_count w2 = (Ok (Chroma.count (collection w1)), w2) /\
    (is_ok r1 = true -> r2 = Ok 0).
Proof.
  intros Hsame H. split.
  { apply add_documents_spec in H as (_ & _ & new & Hnew & _ & _ & Hn).
    by exists new. }
  pose proof (Forall2_length _ _ _ Hsame) as Hlen.
  unfold add_documents in *.
  destruct documents as [|d documents]; destruct documents' as [|d' documents'];
    try discriminate Hlen.
  - injection H as <- <-. by exists (Ok 0), w.
  - unfold mbind at 1, M_bind at 1, lift in H.
    unfold mbind at 1, M_bind at 1, lift.
    assert (len (d' :: documents') = len (d :: documents)) as ->
      by (unfold len; by rewrite Hlen).
    destruct (py_range _ _ _) as [idxs|e].
    + destruct (add_loop_again _ _ _ _ _ _ _ _ Hsame H 0)
        as (r2 & Hagain & Hok).
      by exists r2, w1.
    + injection H as <- <-. by exists (Raise e), w.
Qed.

Lemma ids_of_update c i d (m : metadata_t) :
  Chroma.ids_of (Chroma.update_one (embedding_function E) i d m <$> c)
  = Chroma.ids_of c.
Proof.
  unfold Chroma.ids_of. rewrite <- list_fmap_compose. apply list_fmap_ext.
  intros k r _. simpl. unfold Chroma.update_one.
  case_bool_decide as Hr; simpl; congruence.
Qed.

(** Every call keeps the ids of the live records pairwise distinct. *)
Lemma state_after_NoDup op w :
  NoDup (live_ids w) -> NoDup (live_ids (state_after E op w)).
Proof.
  intros Hw. unfold state_after, run. destruct op as [docs bs|i doc|ids|].
  - unfold mbind, M_bind.
    destruct (add_documents E docs bs w) as [[n|e] w1] eqn:Ha;
      apply add_documents_spec in Ha as (_ & _ & _ & _ & _ & Hnd & _);
      by apply Hnd.
  - unfold update_document, try_except, mbind, M_bind, get_collection, lift,
      Chroma.update, set_collection. simpl.
    unfold live_ids. simpl. by rewrite ids_of_update.
  - unfold delete_documents, try_except, mbind, M_bind, get_collection, lift,
      Chroma.delete, set_collection.
    destruct (Chroma.validate_ids ids); simpl; [|done].
    unfold live_ids, Chroma.ids_of. simpl.
    eapply sublist_NoDup; [exact Hw|].
    unfold live_ids, Chroma.ids_of. apply fmap_sublist, sublist_filter.
  - simpl. unfold live_ids. simpl. constructor.
Qed.

(** C7.  No two live records ever share an id: every call that changes the
    collection ([add_documents], [update_document], [delete_documents],
    [clear_collection]) keeps the ids of the live records pairwise
    distinct, whether it returns or raises, and so does every sequence of
    such calls. *)
Theorem unique_ids_preserved ops w :
  NoDup (live_ids w) ->
  NoDup (live_ids (foldl (fun w op => state_after E op w) w ops)).
Proof.
  revert w. induction ops as [|op ops IH]; intros w Hw; [done|].
  simpl. apply IH. by apply state_after_NoDup.
Qed.

End Store.

Lemma ingestion_idempotent_witness :
  let run := VectorStore.add_documents Scenario.healthy Scenario.two_chunks 100
               Scenario.empty_world in
  run.1 = Ok 2 /\
  (exists new, collection run.2 = collection Scenario.empty_world ++ new /\
               forall n, run.1 = Ok n -> n = len new) /\
  exists r2 w2,
    VectorStore.add_documents Scenario.healthy Scenario.two_chunks_again 100
      run.2 = (r2, w2) /\
    w2 = run.2 /\
    VectorStore.get_document_count w2
    = (Ok (Chroma.count (collection run.2)), w2) /\
    (is_ok run.1 = true -> r2 = Ok 0).
Proof.
  intros run. split; [by vm_compute|].
  apply (ingestion_idempotent Scenario.healthy Scenario.two_chunks
           Scenario.two_chunks_again 100 Scenario.empty_world run.1 run.2).
  - repeat constructor; by vm_compute.
  - by vm_compute.
Defined.

(** The second ingestion of the two chunks writes nothing and counts
    nothing. *)
Example ingestion_twice :
  let first := VectorStore.add_documents Scenario.healthy Scenario.two_chunks
                 100 Scenario.empty_world in
  let second := VectorStore.add_documents Scenario.healthy Scenario.two_chunks
                  100 first.2 in
  first.1 = Ok 2 /\ second.1 = Ok 0 /\ second.2 = first.2 /\
  Chroma.count (collection second.2) = 2.
Proof. by vm_compute. Qed.

Lemma unique_ids_preserved_witness :
  let ops := [VectorStore.AddDocuments Scenario.twin_chunks 100;
              VectorStore.AddDocuments Scenario.two_chunks 1;
              VectorStore.UpdateDocument (txt "pets.txt_pets.txtdog")
                (Scenario.bare_chunk (txt "pets.txt") (txt "puppy"));
              VectorStore.DeleteDocuments [txt "pets.txt_pets.txtcat"]] in
  NoDup (VectorStore.live_ids Scenario.one_record_world) /\
  NoDup (VectorStore.live_ids
           (foldl (fun w op => VectorStore.state_after Scenario.healthy op w)
                  Scenario.one_record_world ops)).
Proof.
  intros ops.
  assert (NoDup (VectorStore.live_ids Scenario.one_record_world)) as H
    by (simpl; apply NoDup_singleton).
  split; [exact H|].
  exact (unique_ids_preserved Scenario.healthy ops Scenario.one_record_world H).
Defined.

(** Two chunks with one id in a single call both pass the skip-if-exists
    check, which looks at the store only; the collection then refuses the
    batch, [add_documents] raises and nothing is written. *)
Example add_documents_twins :
  exists e,
    VectorStore.add_documents Scenario.healthy Scenario.twin_chunks 100
      Scenario.empty_world = (Raise e, Scenario.empty_world) /\
    exn_cls e = DuplicateIDError.
Proof. eexists. split; [by vm_compute | done]. Qed.

(** C2.  The specification makes the embedding computed for a chunk the
    vector the store persists for it.  [VectorStore.add_documents] calls
    [collection.add] without embeddings, so the collection stores the
    vector of its own embedding function.  For the chunk ["cat"] the
    service returns the embedding [[1; 0]]; it ends up in the metadata of
    the record, whose vector is the collection's [[0; 0]]. *)
Theorem ingested_vector_is_not_the_embedding :
  let run := RAGEngine.add_documents Scenario.healthy Scenario.cfg
               [Scenario.bare_chunk (txt "pets.txt") (txt "cat")]
               Scenario.empty_world in
  run.1 = Ok 1 /\
  exists rec,
    collection run.2 = [rec] /\
    Chroma.r_document rec = txt "cat" /\
    Chroma.r_metadata rec !! "embedding"%string = Some (VList [1%Q; 0%Q]) /\
    Chroma.r_embedding rec
    = embedding_function Scenario.healthy (txt "cat") /\
    Chroma.r_embedding rec <> [1%Q; 0%Q].
Proof.
  intros run. split; [by vm_compute|].
  eexists. split; [by vm_compute|]. repeat split; try by vm_compute.
Qed.

(* ================================================================= *)
(** * Further properties of the code *)

(** ** [split_text]: what every chunk looks like *)

Section Chunks.
Import TextSplitter.

Implicit Types (self : TextSplitter.t) (t w c : text) (s : Z).

Lemma lstrip_idem w : lstrip (lstrip w) = lstrip w.
Proof.
  induction w as [|x w IH]; [done|]. simpl.
  destruct (is_space x) eqn:Hx; [done|]. simpl. by rewrite Hx.
Qed.

Lemma rstrip_idem w : rstrip (rstrip w) = rstrip w.
Proof. unfold rstrip. by rewrite reverse_involutive, lstrip_idem. Qed.

Lemma length_lstrip w : (length (lstrip w) <= length w)%nat.
Proof.
  destruct (lstrip_suffix w) as [p Hp]. apply (f_equal length) in Hp.
  rewrite length_app in Hp. lia.
Qed.

Lemma length_rstrip w : (length (rstrip w) <= length w)%nat.
Proof.
  destruct (rstrip_prefix w) as [p Hp]. apply (f_equal length) in Hp.
  rewrite length_app in Hp. lia.
Qed.

Lemma length_strip w : (length (strip w) <= length w)%nat.
Proof.
  unfold strip. pose proof (length_rstrip (lstrip w)).
  pose proof (length_lstrip w). lia.
Qed.

(** Trimming the right end of a text that has no leading white space does
    not uncover any. *)
Lemma lstrip_rstrip u : lstrip u = u -> lstrip (rstrip u) = rstrip u.
Proof.
  intros Hu. destruct (rstrip_prefix u) as [q Hq].
  destruct (rstrip u) as [|x v] eqn:Hv; [done|].
  rewrite Hq in Hu. simpl in Hu. apply lstrip_head.
  by apply lstrip_fixed_head in Hu.
Qed.

Lemma strip_idem w : strip (strip w) = strip w.
Proof.
  unfold strip. rewrite (lstrip_rstrip (lstrip w)) by apply lstrip_idem.
  apply rstrip_idem.
Qed.

(** A trimmed text is a contiguous part of the text it comes from. *)
Lemma strip_infix w : exists pre post, w = pre ++ strip w ++ post.
Proof.
  destruct (lstrip_suffix w) as [p Hp].
  destruct (rstrip_prefix (lstrip w)) as [q Hq].
  exists p, q. unfold strip. by rewrite <- Hq.
Qed.

Lemma slice_infix {A} (l : list A) i j :
  exists pre post, l = pre ++ slice l i j ++ post.
Proof.
  unfold slice.
  exists (take (Z.to_nat (adjust (len l) i)) l),
         (drop (Z.to_nat (adjust (len l) j - adjust (len l) i))
               (drop (Z.to_nat (adjust (len l) i)) l)).
  by rewrite take_drop, take_drop.
Qed.

Lemma windows_from_length fuel self t s :
  (length (windows_from fuel self t s) <= fuel)%nat.
Proof.
  revert s. induction fuel as [|fuel IH]; intros s; simpl.
  - case_match; simpl; lia.
  - case_match; simpl; [|lia]. specialize (IH (Z.max (s + 1)
      (window_end self t s - chunk_overlap self))). lia.
Qed.

Lemma windows_from_slices fuel self t s :
  Forall (fun w => exists i j, s <= i /\ w = slice t i j)
         (windows_from fuel self t s).
Proof.
  revert s. induction fuel as [|fuel IH]; intros s; simpl.
  - by case_match.
  - case_match; [|done]. constructor.
    + exists s, (window_end self t s). split; [lia|done].
    + eapply Forall_impl; [apply IH|]. intros w (i & j & Hi & ->).
      exists i, j. split; [lia|done].
Qed.

Lemma windows_from_bounded fuel self t s :
  0 <= chunk_size self -> 0 <= s ->
  Forall (fun w => len w <= chunk_size self) (windows_from fuel self t s).
Proof.
  intros Hc. revert s. induction fuel as [|fuel IH]; intros s Hs; simpl.
  - by case_match.
  - case_match; [|done]. constructor; [|apply IH; lia].
    rewrite window_end_hard_cut, slice_nonneg by lia.
    unfold len. rewrite length_take. lia.
Qed.

Lemma chunk_of_window self t c :
  c ∈ split_text self t -> c <> [] /\ exists w, w ∈ windows self t /\ c = strip w.
Proof.
  rewrite split_text_windows. intros [Hc Hin]%list_elem_of_filter.
  split; [done|]. apply list_elem_of_fmap in Hin as (w & -> & Hw). eauto.
Qed.

(** X1.  The loop ends within [len(text)] iterations whatever the configuration
    (also for [chunk_overlap >= chunk_size] and for negative settings), and
    it yields at most [len(text)] chunks. *)
Theorem split_text_terminates self t :
  split_loop (length t) self t 0 [] = Some (split_text self t) /\
  (length (split_text self t) <= length t)%nat.
Proof.
  split.
  - destruct (split_loop_total (length t) self t 0 []) as [chunks Hc].
    { unfold len. lia. }
    unfold split_text. destruct t; [done|]. by rewrite Hc.
  - rewrite split_text_windows.
    etransitivity; [apply length_filter|]. rewrite length_fmap.
    apply windows_from_length.
Qed.

(** X2.  No chunk is empty, and no chunk starts or ends with white space. *)
Theorem chunks_trimmed self t c :
  c ∈ split_text self t -> c <> [] /\ strip c = c.
Proof.
  intros [Hc (w & _ & ->)]%chunk_of_window. split; [done|]. apply strip_idem.
Qed.

(** X3.  Every chunk is a contiguous part of the text. *)
Theorem chunks_are_substrings self t c :
  c ∈ split_text self t -> exists pre post, t = pre ++ c ++ post.
Proof.
  intros [_ (w & Hw & ->)]%chunk_of_window.
  pose proof (windows_from_slices (length t) self t 0) as Hall.
  rewrite Forall_forall in Hall. destruct (Hall _ Hw) as (i & j & _ & ->).
  destruct (slice_infix t i j) as (p1 & q1 & H1).
  destruct (strip_infix (slice t i j)) as (p2 & q2 & H2).
  exists (p1 ++ p2), (q2 ++ q1).
  rewrite H1 at 1. rewrite H2 at 1. by rewrite <- !app_assoc.
Qed.

(** X4.  With a non-negative [chunk_size] no chunk is longer than it. *)
Theorem chunks_within_size self t c :
  0 <= chunk_size self -> c ∈ split_text self t -> len c <= chunk_size self.
Proof.
  intros Hc [_ (w & Hw & ->)]%chunk_of_window.
  pose proof (windows_from_bounded (length t) self t 0 Hc (Z.le_refl 0)) as Hall.
  rewrite Forall_forall in Hall. specialize (Hall _ Hw).
  pose proof (length_strip w). unfold len in *. lia.
Qed.

(** *** Overlap and number of chunks under [0 <= overlap < size] *)

Lemma split_text_untrimmed self t :
  0 < chunk_size self ->
  Forall (fun w => strip w = w) (windows self t) ->
  split_text self t = windows self t.
Proof.
  intros Hc Hw. rewrite split_text_windows.
  assert (strip <$> windows self t = windows self t) as ->.
  { rewrite <- (list_fmap_id (windows self t)) at 2. by apply Forall_fmap_ext. }
  apply filter_all, windows_nonempty; lia.
Qed.

Lemma windows_from_overlap fuel self t s i w w' :
  0 <= chunk_overlap self < chunk_size self -> 0 <= s ->
  windows_from fuel self t s !! i = Some w ->
  windows_from fuel self t s !! S i = Some w' ->
  drop (Z.to_nat (chunk_size self - chunk_overlap self)) w
  = take (Z.to_nat (chunk_overlap self)) w'.
Proof.
  intros Hc. revert s i. induction fuel as [|fuel IH]; intros s i Hs.
  - simpl. by case_match.
  - destruct (Z_lt_le_dec s (len t)) as [Hlt|Hge];
      [|by rewrite windows_from_done by done].
    rewrite windows_from_step by done. destruct i as [|i]; simpl.
    + intros [= <-] Hw'.
      destruct fuel as [|fuel]; [simpl in Hw'; by case_match|].
      set (s' := Z.max (s + 1) (s + chunk_size self - chunk_overlap self)) in *.
      destruct (Z_lt_le_dec s' (len t)) as [Hlt'|Hge'];
        [|by rewrite windows_from_done in Hw' by done].
      rewrite windows_from_step in Hw' by done. injection Hw' as <-.
      rewrite !slice_nonneg by lia.
      rewrite drop_take_slice, drop_drop, take_take.
      replace (Z.to_nat s + Z.to_nat (chunk_size self - chunk_overlap self))%nat
        with (Z.to_nat s') by lia.
      f_equal. lia.
    + apply IH. lia.
Qed.

(** X5.  With [0 <= chunk_overlap < chunk_size], and when trimming removes
    nothing from any window, each chunk starts with the last
    [chunk_overlap] characters of a full-size predecessor: the part of a
    chunk after its first [chunk_size - chunk_overlap] characters is the
    beginning of the next chunk. *)
Theorem chunks_overlap self t i c c' :
  0 <= chunk_overlap self < chunk_size self ->
  Forall (fun w => strip w = w) (windows self t) ->
  split_text self t !! i = Some c ->
  split_text self t !! S i = Some c' ->
  drop (Z.to_nat (chunk_size self - chunk_overlap self)) c
  = take (Z.to_nat (chunk_overlap self)) c'.
Proof.
  intros Hc Hw. rewrite split_text_untrimmed by (lia || done).
  by apply windows_from_overlap.
Qed.

Lemma windows_from_count fuel self t s :
  0 <= chunk_overlap self < chunk_size self -> 0 <= s ->
  Z.of_nat (length (windows_from fuel self t s))
    * (chunk_size self - chunk_overlap self)
  < Z.max 0 (len t - s) + (chunk_size self - chunk_overlap self).
Proof.
  intros Hc. revert s. induction fuel as [|fuel IH]; intros s Hs.
  - simpl. case_match; simpl; lia.
  - destruct (Z_lt_le_dec s (len t)) as [Hlt|Hge].
    + rewrite windows_from_step by done. simpl length.
      set (s' := Z.max (s + 1) (s + chunk_size self - chunk_overlap self)).
      rewrite Nat2Z.inj_succ, Z.mul_succ_l.
      destruct (Z_lt_le_dec s' (len t)) as [Hlt'|Hge'].
      * specialize (IH s' ltac:(lia)). lia.
      * rewrite windows_from_done by done. simpl. lia.
    + rewrite windows_from_done by done. simpl. lia.
Qed.

(** X6.  With [0 <= chunk_overlap < chunk_size] the text is cut into at most
    [ceil(len(text) / (chunk_size - chunk_overlap))] chunks. *)
Theorem chunk_count_bound self t :
  0 <= chunk_overlap self < chunk_size self ->
  Z.of_nat (length (split_text self t)) * (chunk_size self - chunk_overlap self)
  < len t + (chunk_size self - chunk_overlap self).
Proof.
  intros Hc. pose proof (windows_from_count (length t) self t 0 Hc (Z.le_refl 0)).
  assert (length (split_text self t) <= length (windows self t))%nat.
  { rewrite split_text_windows. etransitivity; [apply length_filter|].
    by rewrite length_fmap. }
  unfold windows, len in *. nia.
Qed.

End Chunks.

Lemma chunks_trimmed_witness :
  txt "ab" ∈ TextSplitter.split_text
               {| TextSplitter.chunk_size := 3; TextSplitter.chunk_overlap := 0 |}
               (txt "ab cd") /\
  txt "ab" <> [] /\ strip (txt "ab") = txt "ab".
Proof.
  assert (txt "ab" ∈ TextSplitter.split_text
            {| TextSplitter.chunk_size := 3; TextSplitter.chunk_overlap := 0 |}
            (txt "ab cd")) as H by (vm_compute; apply list_elem_of_here).
  split; [exact H|]. exact (chunks_trimmed _ _ _ H).
Defined.

Lemma chunks_are_substrings_witness :
  exists pre post, txt "ab cd" = pre ++ txt "cd" ++ post.
Proof.
  apply (chunks_are_substrings
           {| TextSplitter.chunk_size := 3; TextSplitter.chunk_overlap := 0 |}
           (txt "ab cd") (txt "cd")).
  vm_compute. apply list_elem_of_further, list_elem_of_here.
Defined.

Lemma chunks_within_size_witness : len (txt "cd") <= 3.
Proof.
  apply (chunks_within_size
           {| TextSplitter.chunk_size := 3; TextSplitter.chunk_overlap := 0 |}
           (txt "ab cd") (txt "cd")).
  - simpl. lia.
  - vm_compute. apply list_elem_of_further, list_elem_of_here.
Defined.

Lemma chunks_overlap_witness :
  drop (Z.to_nat (4 - 1)) (txt "abcd") = take (Z.to_nat 1) (txt "defg").
Proof.
  apply (chunks_overlap
           {| TextSplitter.chunk_size := 4; TextSplitter.chunk_overlap := 1 |}
           (txt "abcdefghij") 0%nat (txt "abcd") (txt "defg")).
  - simpl. lia.
  - vm_compute. repeat constructor.
  - by vm_compute.
  - by vm_compute.
Defined.

Lemma chunk_count_bound_witness :
  Z.of_nat (length (TextSplitter.split_text
                      {| TextSplitter.chunk_size := 4;
                         TextSplitter.chunk_overlap := 1 |}
                      (txt "abcdefghij"))) * (4 - 1)
  < len (txt "abcdefghij") + (4 - 1).
Proof.
  apply (chunk_count_bound
           {| TextSplitter.chunk_size := 4; TextSplitter.chunk_overlap := 1 |}
           (txt "abcdefghij")).
  simpl. lia.
Defined.

(** ** The embedding cache *)

Section Cache.
Variable E : env.


(** X9.  A cache file that does not unpickle is a miss, never an error; the
    file is removed, so that the next [get] is a plain miss that leaves
    the cache alone. *)
Theorem cache_get_heals text_ w :
  cache w !! md5_hexdigest E text_ = Some None ->
  let w1 := (EmbeddingCache.get E text_ w).2 in
  EmbeddingCache.get E text_ w = (Ok None, w1) /\
  cache w1 = delete (md5_hexdigest E text_) (cache w) /\
  EmbeddingCache.get E text_ w1 = (Ok None, w1).
Proof.
  intros H. unfold EmbeddingCache.get, EmbeddingCache._get_cache_key,
    mbind, M_bind, get_cache, set_cache. simpl. rewrite H. simpl.
  by rewrite lookup_delete_eq.
Qed.

(** X10.  After [clear] every [get] is a miss. *)
Theorem cache_clear_get text_ w :
  let w1 := (EmbeddingCache.clear w).2 in
  EmbeddingCache.get E text_ w1 = (Ok None, w1).
Proof.
  unfold EmbeddingCache.get, EmbeddingCache.clear, mbind, M_bind, get_cache,
    set_cache. simpl. by rewrite lookup_empty.
Qed.

End Cache.

Lemma cache_get_heals_witness :
  let w1 := (EmbeddingCache.get Scenario.healthy (txt "cat")
               Reading.corrupt_cache_world).2 in
  EmbeddingCache.get Scenario.healthy (txt "cat") Reading.corrupt_cache_world
    = (Ok None, w1) /\
  cache w1 = delete (txt "cat") (cache Reading.corrupt_cache_world) /\
  EmbeddingCache.get Scenario.healthy (txt "cat") w1 = (Ok None, w1).
Proof.
  apply (cache_get_heals Scenario.healthy (txt "cat")
           Reading.corrupt_cache_world).
  by vm_compute.
Defined.

(** ** [split_document] *)

Section SplitDocuments.
Import SplitDocument.
Variable E : env.

Lemma new_Document_ok content_ (md : metadata_t) source_ w :
  (forall src, source_ = Some src -> exists sz, file_size E src = Ok sz) ->
  exists md',
    RAGEngine.new_Document E content_ md source_ w
    = (Ok {| content := content_; metadata := md'; source := source_ |}, w) /\
    (forall k, k <> "source"%string -> k <> "file_size"%string ->
               md' !! k = md !! k).
Proof.
  intros H. unfold RAGEngine.new_Document. destruct source_ as [src|].
  - destruct (truthy src); [|by exists md].
    destruct (H src eq_refl) as [sz Hsz].
    unfold mbind, M_bind, lift. rewrite Hsz. eexists. split; [done|].
    intros k Hk1 Hk2. by rewrite !lookup_insert_ne.
  - by exists md.
Qed.

Lemma make_chunk_run (document : Document) total acc (ic : nat * text) w :
  (forall src, source document = Some src ->
               exists sz, file_size E src = Ok sz) ->
  exists d,
    make_chunk E document total acc ic w = (Ok (acc ++ [d]), w) /\
    content d = ic.2 /\ source d = source document /\
    metadata d !! "chunk_index"%string = Some (VInt (Z.of_nat ic.1)) /\
    metadata d !! "total_chunks"%string = Some (VInt (Z.of_nat total)) /\
    metadata d !! "chunk_size"%string = Some (VInt (len ic.2)).
Proof.
  intros H.
  destruct (new_Document_ok ic.2 (chunk_metadata document ic.1 total ic.2)
              (source document) w H) as (md' & Hnew & Hmd).
  eexists. split.
  { unfold make_chunk. by rewrite (bind_ok _ _ _ _ _ Hnew). }
  simpl. repeat split; try done; rewrite Hmd by done; unfold chunk_metadata.
  - by rewrite lookup_insert_ne, lookup_insert_ne, lookup_insert_eq.
  - by rewrite lookup_insert_ne, lookup_insert_eq.
  - by rewrite lookup_insert_eq.
Qed.

Lemma make_chunks_spec (document : Document) total indexed acc w :
  (forall src, source document = Some src ->
               exists sz, file_size E src = Ok sz) ->
  exists docs,
    for_each indexed acc (make_chunk E document total) w
    = (Ok (acc ++ docs), w) /\
    Forall2 (fun (d : Document) (ic : nat * text) =>
               content d = ic.2 /\ source d = source document /\
               metadata d !! "chunk_index"%string = Some (VInt (Z.of_nat ic.1)) /\
               metadata d !! "total_chunks"%string
                 = Some (VInt (Z.of_nat total)) /\
               metadata d !! "chunk_size"%string = Some (VInt (len ic.2)))
            docs indexed.
Proof.
  intros H. revert acc. induction indexed as [|ic indexed IH]; intros acc.
  - exists []. by rewrite app_nil_r.
  - destruct (make_chunk_run document total acc ic w H) as (d & Hrun & Hd).
    destruct (IH (acc ++ [d])) as (docs & Hrest & Hall).
    exists (d :: docs). split.
    + cbn [for_each]. rewrite (bind_ok _ _ _ _ _ Hrun), Hrest.
      by rewrite <- app_assoc.
    + by constructor.
Qed.

(** X7.  [split_document] returns one document per chunk of [split_text], in
    order, each with the chunk as content, the parent's source, and its
    index, the number of chunks and its own length in the metadata;
    provided the size probe of the constructor answers. *)
Theorem split_document_chunks self (document : Document) w :
  (forall src, source document = Some src ->
               exists sz, file_size E src = Ok sz) ->
  let chunks := TextSplitter.split_text self (content document) in
  exists docs,
    split_document E self document w = (Ok docs, w) /\
    content <$> docs = chunks /\
    Forall2 (fun (d : Document) (ic : nat * text) =>
               content d = ic.2 /\ source d = source document /\
               metadata d !! "chunk_index"%string = Some (VInt (Z.of_nat ic.1)) /\
               metadata d !! "total_chunks"%string
                 = Some (VInt (Z.of_nat (length chunks))) /\
               metadata d !! "chunk_size"%string = Some (VInt (len ic.2)))
            docs (zip (seq 0 (length chunks)) chunks).
Proof.
  intros H chunks. unfold split_document. fold chunks.
  destruct (make_chunks_spec document (length chunks)
              (zip (seq 0 (length chunks)) chunks) [] w H) as (docs & Hrun & Hall).
  exists docs. split; [done|]. split; [|done].
  assert (content <$> docs = snd <$> zip (seq 0 (length chunks)) chunks) as ->.
  { clear Hrun. induction Hall as [|d ic ds ics (Hd & _) _ IH]; [done|].
    rewrite !fmap_cons. by f_equal. }
  apply snd_zip. by rewrite length_seq.
Qed.

End SplitDocuments.

Lemma split_document_chunks_witness :
  let document := Scenario.bare_chunk (txt "pets.txt") (txt "ab cd") in
  let self := {| TextSplitter.chunk_size := 3;
                 TextSplitter.chunk_overlap := 0 |} in
  exists docs,
    SplitDocument.split_document Scenario.healthy self document
      Scenario.empty_world = (Ok docs, Scenario.empty_world) /\
    content <$> docs = [txt "ab"; txt "cd"].
Proof.
  intros document self.
  destruct (split_document_chunks Scenario.healthy self document
              Scenario.empty_world) as (docs & Hrun & Hc & _).
  { intros src _. by exists 0. }
  exists docs. split; [exact Hrun|]. exact Hc.
Defined.

(** ** [AppConfig.validate] *)

Section Config.
Import AppConfig.
Variable upper : text -> text.

(** X11.  [validate] reports nothing exactly when the URL has an http(s) scheme,
    the threshold lies in [[0,1]] and the upper-cased log level is a known
    one; it reports at most three errors, and with a well-formed URL a
    threshold out of range is the first one reported. *)
Theorem validate_spec (self : AppConfig.t) :
  let url_ok := startswith (base_url self) (txt "http://")
                || startswith (base_url self) (txt "https://") in
  (validate upper self = [] <->
     url_ok = true /\
     (0 <= similarity_threshold self)%Q /\ (similarity_threshold self <= 1)%Q /\
     upper (logging_level self) ∈ valid_levels) /\
  (length (validate upper self) <= 3)%nat /\
  (url_ok = true ->
   ~ ((0 <= similarity_threshold self)%Q /\ (similarity_threshold self <= 1)%Q) ->
   validate upper self !! 0%nat = Some threshold_error).
Proof.
  intros url_ok. unfold validate. fold url_ok.
  destruct url_ok eqn:Hu; simpl;
    destruct (Qle_bool 0 (similarity_threshold self)) eqn:H0;
    destruct (Qle_bool (similarity_threshold self) 1) eqn:H1; simpl;
    case_bool_decide as Hl; simpl;
    try apply Qle_bool_iff in H0; try apply Qle_bool_iff in H1;
    (split; [split; [try done; intros _; by repeat split
                    | intros (? & ? & ? & ?); try done]
            | split; [lia | intros ? Hn; try done;
                            exfalso; apply Hn; by split]]);
    try (exfalso;
         match goal with
         | H : Qle_bool _ _ = false, H' : (_ <= _)%Q |- _ =>
             apply Qle_bool_iff in H'; congruence
         end).
Qed.

End Config.

Lemma validate_spec_witness :
  AppConfig.validate (fun s => s)
    {| AppConfig.base_url := txt "http://localhost:11434";
       AppConfig.similarity_threshold := 3 # 2;
       AppConfig.logging_level := txt "INFO" |} !! 0%nat
  = Some AppConfig.threshold_error.
Proof.
  apply (proj2 (proj2 (validate_spec (fun s => s)
           {| AppConfig.base_url := txt "http://localhost:11434";
              AppConfig.similarity_threshold := 3 # 2;
              AppConfig.logging_level := txt "INFO" |}))).
  - by vm_compute.
  - intros [_ H]. vm_compute in H. by apply H.
Defined.

(** ** [generate_text]: the retry policy at work *)

Section GenerateText.
Import OllamaClient.
Variable E : env.

Lemma generate_text_once_raises prompt model stream w e :
  http E (log w) (generate_payload prompt model stream) = PostRaises e ->
  generate_text_once E prompt model stream w
  = (Raise e, after (EvPost (generate_payload prompt model stream)) w).
Proof.
  intros H. unfold generate_text_once, mbind, M_bind, requests_post.
  by rewrite H.
Qed.

Lemma generate_text_once_status prompt model stream w resp :
  http E (log w) (generate_payload prompt model stream) = PostReturns resp ->
  (400 <=? status_code resp) && (status_code resp <? 600) = true ->
  generate_text_once E prompt model stream w
  = (Raise (Exn RequestException (txt "HTTPError")),
     after (EvPost (generate_payload prompt model stream)) w).
Proof.
  intros H Hs. unfold generate_text_once, mbind, M_bind, requests_post.
  rewrite H. unfold raise_for_status. by rewrite Hs.
Qed.

Lemma generate_text_once_returns prompt model stream w resp :
  http E (log w) (generate_payload prompt model stream) = PostReturns resp ->
  (400 <=? status_code resp) && (status_code resp <? 600) = false ->
  generate_text_once E prompt model stream w
  = (Ok (default [] (json_response resp)),
     after (EvPost (generate_payload prompt model stream)) w).
Proof.
  intros H Hs. unfold generate_text_once, mbind, M_bind, requests_post.
  rewrite H. unfold raise_for_status. by rewrite Hs.
Qed.

Lemma transient_request_exception msg :
  is_instance transient (Exn RequestException msg) = true.
Proof. unfold is_instance. apply bool_decide_eq_true_2, list_elem_of_here. Qed.

(** X12.  [generate_text] gives up after the third transient failure and raises
    it, having slept 1 and 2 seconds; an HTTP error status counts as a
    transient failure and is retried; a body without the ["response"] field
    is not an error but the empty text; and an exception outside the
    retried classes is raised after a single attempt. *)
Theorem generate_text_retry prompt model stream w :
  let p := generate_payload prompt model stream in
  (forall e1 e2 e3,
     http E (log w) p = PostRaises e1 -> exn_cls e1 ∈ transient ->
     http E (log w ++ [EvPost p; EvSleep 1]) p = PostRaises e2 ->
     exn_cls e2 ∈ transient ->
     http E (log w ++ [EvPost p; EvSleep 1; EvPost p; EvSleep 2]) p
       = PostRaises e3 ->
     exists w', generate_text E prompt model stream w = (Raise e3, w') /\
       log w' = log w ++ [EvPost p; EvSleep 1; EvPost p; EvSleep 2; EvPost p]) /\
  (forall r1 r2 r3,
     http E (log w) p = PostReturns r1 ->
     (400 <=? status_code r1) && (status_code r1 <? 600) = true ->
     http E (log w ++ [EvPost p; EvSleep 1]) p = PostReturns r2 ->
     (400 <=? status_code r2) && (status_code r2 <? 600) = true ->
     http E (log w ++ [EvPost p; EvSleep 1; EvPost p; EvSleep 2]) p
       = PostReturns r3 ->
     (400 <=? status_code r3) && (status_code r3 <? 600) = false ->
     exists w', generate_text E prompt model stream w
                = (Ok (default [] (json_response r3)), w') /\
       log w' = log w ++ [EvPost p; EvSleep 1; EvPost p; EvSleep 2; EvPost p]) /\
  (forall e,
     http E (log w) p = PostRaises e -> exn_cls e ∉ transient ->
     generate_text E prompt model stream w = (Raise e, after (EvPost p) w)).
Proof.
  intros p. split; [|split].
  - intros e1 e2 e3 H1 Ht1 H2 Ht2 H3.
    unfold generate_text, retry. simpl.
    rewrite (generate_text_once_raises _ _ _ _ _ H1).
    unfold is_instance. rewrite bool_decide_eq_true_2 by done.
    unfold mbind, M_bind, time_sleep, record_event. simpl.
    rewrite (generate_text_once_raises _ _ _ _ e2)
      by (simpl; by rewrite <- app_assoc).
    rewrite bool_decide_eq_true_2 by done. simpl.
    rewrite (generate_text_once_raises _ _ _ _ e3)
      by (simpl; by rewrite <- !app_assoc).
    eexists. split; [by case_bool_decide|]. simpl. by rewrite <- !app_assoc.
  - intros r1 r2 r3 H1 Hs1 H2 Hs2 H3 Hs3.
    unfold generate_text, retry. simpl.
    rewrite (generate_text_once_status _ _ _ _ _ H1 Hs1).
    rewrite transient_request_exception.
    unfold mbind, M_bind, time_sleep, record_event. simpl.
    rewrite (generate_text_once_status _ _ _ _ r2)
      by (simpl; by rewrite <- ?app_assoc).
    rewrite transient_request_exception. simpl.
    rewrite (generate_text_once_returns _ _ _ _ r3)
      by (simpl; by rewrite <- ?app_assoc).
    eexists. split; [done|]. simpl. by rewrite <- !app_assoc.
  - intros e H Hn. unfold generate_text, retry. simpl.
    rewrite (generate_text_once_raises _ _ _ _ _ H).
    unfold is_instance. by rewrite bool_decide_eq_false_2.
Qed.

End GenerateText.

Lemma generate_text_retry_witness :
  let p := OllamaClient.generate_payload (txt "why?") (txt "llama3") false in
  (exists w',
     OllamaClient.generate_text Scenario.down (txt "why?") (txt "llama3") false
       Scenario.empty_world = (Raise Scenario.connection_refused, w') /\
     log w' = [EvPost p; EvSleep 1; EvPost p; EvSleep 2; EvPost p]) /\
  (exists w',
     OllamaClient.generate_text Reading.overloaded (txt "why?") (txt "llama3")
       false Scenario.empty_world = (Ok [], w') /\
     log w' = [EvPost p; EvSleep 1; EvPost p; EvSleep 2; EvPost p]) /\
  OllamaClient.generate_text
    (Scenario.env_with
       (fun _ _ => PostRaises (Exn OtherException (txt "Connection failed"))))
    (txt "why?") (txt "llama3") false Scenario.empty_world
  = (Raise (Exn OtherException (txt "Connection failed")),
     after (EvPost p) Scenario.empty_world).
Proof.
  intros p. split; [|split].
  - apply (proj1 (generate_text_retry Scenario.down (txt "why?") (txt "llama3")
                    false Scenario.empty_world)
             Scenario.connection_refused Scenario.connection_refused
             Scenario.connection_refused);
      try reflexivity; apply list_elem_of_here.
  - apply (proj1 (proj2 (generate_text_retry Reading.overloaded (txt "why?")
                           (txt "llama3") false Scenario.empty_world))
             {| status_code := 503; json_embedding := None;
                json_response := None |}
             {| status_code := 503; json_embedding := None;
                json_response := None |}
             {| status_code := 200; json_embedding := None;
                json_response := None |});
      reflexivity.
  - apply (proj2 (proj2 (generate_text_retry
             (Scenario.env_with
                (fun _ _ => PostRaises (Exn OtherException
                                          (txt "Connection failed"))))
             (txt "why?") (txt "llama3") false Scenario.empty_world))).
    + reflexivity.
    + unfold OllamaClient.transient. simpl.
      rewrite !elem_of_cons, elem_of_nil. intros [?|[?|[]]]; discriminate.
Defined.

(** ** The embedding loop of [RAGEngine.add_documents] *)

Section Embedding.
Import OllamaClient RAGEngine.
Variable E : env.
Variable cfg : config.

Lemma retry_internal_ok {A} (P : A -> Prop) (f : M A) excs n delay backoff
    w a w' :
  (forall w a w', f w = (Ok a, w') -> P a) ->
  retry_internal f excs n delay backoff w = (Ok a, w') -> P a.
Proof.
  intros Hf. revert delay w. induction n as [|n IH]; intros delay w; simpl;
    destruct (f w) as [[a1|e] w1] eqn:Hfw.
  - intros [= <- <-]. by eapply Hf.
  - by destruct (is_instance excs e).
  - intros [= <- <-]. by eapply Hf.
  - destruct (is_instance excs e); [|done].
    unfold mbind, M_bind, time_sleep, record_event. apply IH.
Qed.

(** An embedding that is returned is never empty. *)
Lemma generate_embedding_nonempty text_ model w v w' :
  generate_embedding E text_ model w = (Ok v, w') ->
  v <> [] /\ cache w' = cache w /\ collection w' = collection w.
Proof.
  intros H. split.
  - unfold generate_embedding, retry in H.
    eapply (retry_internal_ok (fun v => v <> [])) in H; [done|].
    clear. intros w a w'. unfold generate_embedding_once, mbind, M_bind.
    destruct (requests_post E _ w) as [[resp|e] w1]; [|done].
    destruct (raise_for_status resp w1) as [[[]|e] w2]; [|done].
    destruct (json_embedding resp) as [[|x v]|]; try done.
    by intros [= <- <-].
  - unfold generate_embedding, retry in H.
    eapply retry_internal_bound in H as (evs & _ & _ & Hc & Hk);
      [done | apply generate_embedding_once_post].
Qed.





End Embedding.


(** With the embedding service down nothing is ingested, and nothing is
    raised. *)
Example add_documents_service_down :
  (RAGEngine.add_documents Scenario.down Scenario.cfg
     [Scenario.bare_chunk (txt "pets.txt") (txt "cat");
      Scenario.bare_chunk (txt "pets.txt") (txt "dog")]
     Scenario.empty_world).1 = Ok 0.
Proof. by vm_compute. Qed.

(** ** The prompt and the number of service calls of a query *)

Section Prompt.
Import OllamaClient RAGEngine Scenario Reading.
Variable E : env.
Variable cfg : config.



Lemma posts_at_most_weaken {A} n k (m : M A) :
  (n <= k)%nat -> posts_at_most n m -> posts_at_most k m.
Proof.
  intros Hle Hm w r w' (evs & Hl & Hp)%Hm. exists evs. split; [done|]. lia.
Qed.

Lemma posts_at_most_pure {A} (m : M A) :
  (forall w, exists r, m w = (r, w)) -> posts_at_most 0 m.
Proof.
  intros Hm w r w' H. destruct (Hm w) as [r' Hr]. rewrite Hr in H.
  injection H as <- <-. exists []. by rewrite app_nil_r.
Qed.

Lemma posts_at_most_bind {A B} n k (m : M A) (f : A -> M B) :
  posts_at_most n m -> (forall a, posts_at_most k (f a)) ->
  posts_at_most (n + k) (m ≫= f).
Proof.
  intros Hm Hf w r w'. unfold mbind, M_bind.
  destruct (m w) as [[a|e] w1] eqn:H1.
  - intros H2. apply Hm in H1 as (evs1 & Hl1 & Hp1).
    apply Hf in H2 as (evs2 & Hl2 & Hp2).
    exists (evs1 ++ evs2). rewrite Hl2, Hl1, <- app_assoc. split; [done|].
    rewrite posts_app. lia.
  - intros [= <- <-]. apply Hm in H1 as (evs1 & Hl1 & Hp1).
    exists evs1. split; [done|]. lia.
Qed.

Lemma posts_at_most_time : posts_at_most 0 (time_time E).
Proof. intros w r w' [= <- <-]. by exists [EvTime]. Qed.

Lemma posts_at_most_for_each {A B} (l : list A) (acc : B) body :
  (forall acc x, posts_at_most 0 (body acc x)) ->
  posts_at_most 0 (for_each l acc body).
Proof.
  intros Hb. revert acc. induction l as [|x l IH]; intros acc; simpl.
  - apply posts_at_most_pure. intros w. by eexists.
  - apply (posts_at_most_bind 0 0); [apply Hb | intros a; apply IH].
Qed.

Lemma posts_at_most_embedding text_ model :
  posts_at_most 3 (generate_embedding E text_ model).
Proof.
  intros w r w' H. unfold generate_embedding, retry in H.
  eapply retry_internal_bound in H as (evs & Hl & Hp & _);
    [|apply generate_embedding_once_post].
  exists evs. split; [done|]. simpl in Hp. lia.
Qed.

Lemma posts_at_most_text prompt model stream :
  posts_at_most 3 (generate_text E prompt model stream).
Proof.
  intros w r w' H. unfold generate_text, retry in H.
  eapply (retry_internal_bound _ (generate_payload prompt model stream))
    in H as (evs & Hl & Hp & _).
  - exists evs. split; [done|]. simpl in Hp. lia.
  - clear. intros w. unfold generate_text_once, mbind, M_bind, requests_post.
    destruct (http E (log w) _) as [e|resp]; [eauto|].
    unfold raise_for_status. destruct (_ && _); eauto.
Qed.

Lemma posts_at_most_search question_ n_results :
  posts_at_most 3 (search_documents E cfg question_ n_results).
Proof.
  unfold search_documents.
  apply (posts_at_most_bind 0 3); [apply posts_at_most_time|]. intros _.
  apply (posts_at_most_bind 3 0); [apply posts_at_most_embedding|]. intros q.
  apply (posts_at_most_bind 0 0).
  { apply posts_at_most_pure. intros w. by eexists. }
  intros results. apply (posts_at_most_bind 0 0).
  { unfold parse_results.
    destruct (Chroma.q_documents results) as [| |[|[|d ds] ?]];
      try (apply posts_at_most_pure; intros w; by eexists).
    apply (posts_at_most_bind 0 0);
      [apply posts_at_most_pure; intros w; by eexists|]. intros metas.
    apply (posts_at_most_bind 0 0);
      [apply posts_at_most_pure; intros w; by eexists|]. intros dists.
    apply posts_at_most_for_each. intros acc h. unfold parse_hit.
    apply (posts_at_most_bind 0 0);
      [apply posts_at_most_pure; intros w; by eexists|]. intros sim.
    destruct (h.2.1); [|apply posts_at_most_pure; intros w; by eexists].
    apply (posts_at_most_bind 0 0);
      [|intros; apply posts_at_most_pure; intros w; by eexists].
    apply posts_at_most_pure. intros w. unfold new_Document.
    destruct (_ !! _) as [v|]; [|by eexists].
    destruct (truthy v); [|by eexists].
    unfold mbind, M_bind, lift. destruct (file_size E v); by eexists. }
  intros docs. apply (posts_at_most_bind 0 0); [apply posts_at_most_time|].
  intros _. apply posts_at_most_pure. intros w. by eexists.
Qed.

Lemma posts_at_most_answer question_ docs :
  posts_at_most 3 (generate_answer E cfg question_ docs).
Proof.
  unfold generate_answer.
  apply (posts_at_most_bind 0 3); [apply posts_at_most_time|]. intros _.
  apply (posts_at_most_bind 3 0); [apply posts_at_most_text|]. intros a'.
  apply (posts_at_most_bind 0 0); [apply posts_at_most_time|]. intros _.
  apply posts_at_most_pure. intros w. by eexists.
Qed.

Lemma posts_at_most_try_except {A} n (m : M A) (h : exn -> M A) :
  posts_at_most n m -> (forall e, posts_at_most 0 (h e)) ->
  posts_at_most n (try_except m h).
Proof.
  intros Hm Hh w r w'. unfold try_except.
  destruct (m w) as [[a|e] w1] eqn:H1.
  - intros [= <- <-]. by apply Hm in H1.
  - intros H2. apply Hm in H1 as (evs1 & Hl1 & Hp1).
    apply Hh in H2 as (evs2 & Hl2 & Hp2).
    exists (evs1 ++ evs2). rewrite Hl2, Hl1, <- app_assoc. split; [done|].
    rewrite posts_app. lia.
Qed.

(** X16.  A query makes at most six POSTs: at most three to embed the question
    and at most three to generate the answer. *)
Theorem query_posts_bounded question_ n_results min_similarity w r w' :
  query E cfg question_ n_results min_similarity w = (r, w') ->
  exists evs, log w' = log w ++ evs /\ (posts evs <= 6)%nat.
Proof.
  revert w r w'. change (posts_at_most 6
    (query E cfg question_ n_results min_similarity)).
  unfold query.
  apply (posts_at_most_bind 3 3); [apply posts_at_most_search|].
  intros docs. destruct (filter _ docs) as [|r0 rest].
  { apply (posts_at_most_weaken 0); [lia|].
    apply posts_at_most_pure. intros w. by eexists. }
  apply (posts_at_most_bind 0 3); [apply posts_at_most_time|]. intros t0.
  apply (posts_at_most_bind 3 0).
  - apply posts_at_most_try_except; [apply posts_at_most_answer|].
    intros e. apply posts_at_most_pure. intros w. by eexists.
  - intros ans. apply (posts_at_most_bind 0 0); [apply posts_at_most_time|].
    intros t1. apply posts_at_most_pure. intros w. by eexists.
Qed.

End Prompt.


Lemma query_posts_bounded_witness :
  let run := RAGEngine.query Scenario.generation_down Scenario.cfg (txt "cat?")
               5 0%Q Scenario.one_record_world in
  exists evs,
    log run.2 = log Scenario.one_record_world ++ evs /\
    (Scenario.posts evs <= 6)%nat.
Proof.
  intros run.
  apply (query_posts_bounded Scenario.generation_down Scenario.cfg (txt "cat?")
           5 0%Q Scenario.one_record_world run.1 run.2).
  by vm_compute.
Defined.

(** ** The vector store as a function of its input *)

Section Ingest.
Import VectorStore Reading.
Variable E : env.

Implicit Types (c : Chroma.collection) (w : world) (doc : Document).















(** X19.  The number [add_documents] returns is the growth of the document
    count; the records stored before stay in place, whether the call
    returns or raises. *)
Theorem add_documents_count documents batch_size w r w' :
  add_documents E documents batch_size w = (r, w') ->
  exists new,
    collection w' = collection w ++ new /\
    get_document_count w'
    = (Ok (Chroma.count (collection w) + len new), w') /\
    (forall n, r = Ok n -> n = len new).
Proof.
  intros (_ & _ & new & Hc & _ & _ & Hn)%add_documents_spec.
  exists new. split; [done|]. split; [|done].
  unfold get_document_count, mbind, M_bind, get_collection. cbn [mret M_ret].
  rewrite Hc. unfold Chroma.count, len. by rewrite length_app, Nat2Z.inj_add.
Qed.

(** X20.  A batch size of zero raises [ValueError] and a negative one adds
    nothing; in both cases the store is not touched. *)
Theorem add_documents_bad_batch_size d documents batch_size w :
  batch_size <= 0 ->
  add_documents E (d :: documents) batch_size w
  = (if batch_size =? 0
     then Raise (Exn ValueError (txt "range() arg 3 must not be zero"))
     else Ok 0, w).
Proof.
  intros Hb. unfold add_documents, py_range.
  destruct (Z.eqb_spec batch_size 0) as [->|Hz]; [done|].
  destruct (Z.ltb_spec 0 batch_size); [lia|].
  replace (Z.to_nat _) with 0%nat; [done|].
  symmetry. apply Z2Nat.nonpos. apply Z.lt_succ_r, Z.div_lt_upper_bound.
  - lia.
  - pose proof (len_nonneg (d :: documents)). unfold len in *.
    cbn [length] in *. lia.
Qed.

Lemma ids_of_filter c (ids : list text) :
  Chroma.ids_of (filter (fun r => Chroma.r_id r ∉ ids) c)
  = filter (fun i => i ∉ ids) (Chroma.ids_of c).
Proof.
  unfold Chroma.ids_of. induction c as [|r c IH]; [done|].
  rewrite fmap_cons, !filter_cons.
  destruct (decide (Chroma.r_id r ∉ ids)); [|done]. by rewrite fmap_cons, IH.
Qed.

(** X21.  [delete_documents] never raises.  When it answers [True], the records
    with a listed id are gone and the others stay, in their order; when
    it answers [False], nothing has changed. *)
Theorem delete_documents_spec ids w :
  exists b w',
    delete_documents ids w = (Ok b, w') /\
    log w' = log w /\ cache w' = cache w /\
    (b = true ->
     collection w' = filter (fun r => Chroma.r_id r ∉ ids) (collection w) /\
     live_ids w' = filter (fun i => i ∉ ids) (live_ids w)) /\
    (b = false -> w' = w).
Proof.
  unfold delete_documents, try_except, mbind, M_bind, get_collection, lift,
    Chroma.delete, set_collection.
  destruct (Chroma.validate_ids ids); cbn [mret M_ret].
  - eexists true, _. split; [done|]. repeat split; try done.
    unfold live_ids. cbn [collection]. apply ids_of_filter.
  - eexists false, _. split; [done|]. repeat split; try done.
Qed.


End Ingest.



Lemma add_documents_count_witness :
  let run := VectorStore.add_documents Scenario.healthy Scenario.two_chunks
               100 Scenario.one_record_world in
  exists new,
    collection run.2 = collection Scenario.one_record_world ++ new /\
    VectorStore.get_document_count run.2 = (Ok (1 + len new), run.2) /\
    (forall n, run.1 = Ok n -> n = len new).
Proof.
  intros run.
  apply (add_documents_count Scenario.healthy Scenario.two_chunks 100
           Scenario.one_record_world run.1 run.2).
  by vm_compute.
Defined.

Lemma add_documents_bad_batch_size_witness :
  VectorStore.add_documents Scenario.healthy Scenario.two_chunks (-1)
    Scenario.empty_world
  = (Ok 0, Scenario.empty_world).
Proof.
  apply (add_documents_bad_batch_size Scenario.healthy
           (Scenario.chunk (txt "pets.txt") (txt "cat") [1%Q; 0%Q])
           [Scenario.chunk (txt "pets.txt") (txt "dog") [0%Q; 1%Q]] (-1)
           Scenario.empty_world).
  lia.
Defined.

(** ** The batch embedder *)

Section Embedder.
Import OllamaClient OllamaDirectEmbedder Scenario.
Variable E : env.

Lemma generate_embeddings_loop (self : OllamaDirectEmbedder.t) texts acc
    w r w' :
  for_each texts acc
    (fun embeddings text_ =>
       embedding ← OllamaDirectEmbedder.generate_embedding E self text_;
       mret (embeddings ++ [embedding])) w = (r, w') ->
  exists evs,
    log w' = log w ++ evs /\ (posts evs <= 3 * length texts)%nat /\
    collection w' = collection w /\ cache w' = cache w /\
    forall vs, r = Ok vs ->
      exists new, vs = acc ++ new /\ length new = length texts /\
                  Forall (fun v => v <> []) new.
Proof.
  set (body := fun (embeddings : list vector) (text_ : text) =>
                  embedding ← OllamaDirectEmbedder.generate_embedding E self text_;
                  mret (embeddings ++ [embedding])).
  revert acc w. induction texts as [|text_ texts IH]; intros acc w.
  - intros [= <- <-]. exists []. rewrite app_nil_r.
    repeat split; try done. intros vs [= <-]. exists []. by rewrite app_nil_r.
  - cbn [for_each]. unfold mbind at 1, M_bind at 1.
    destruct (body acc text_ w) as [[a|e] w1] eqn:Hb;
      unfold body, mbind, M_bind in Hb;
      destruct (OllamaDirectEmbedder.generate_embedding E self text_ w)
        as [[v|e1] w0] eqn:Hg; try done;
      injection Hb as <- <-;
      pose proof Hg as Hne;
      unfold OllamaDirectEmbedder.generate_embedding, retry in Hg;
      (eapply retry_internal_bound in Hg as (evs1 & Hl1 & Hp1 & Hc1 & Hk1);
        [|apply generate_embedding_once_post]).
    + apply generate_embedding_nonempty in Hne as (Hne & _ & _).
      intros (evs2 & Hl2 & Hp2 & Hc2 & Hk2 & Hvs)%IH.
      exists (evs1 ++ evs2). rewrite Hl2, Hl1, <- app_assoc, posts_app.
      split; [done|]. split; [simpl in *; lia|].
      split; [congruence|]. split; [congruence|].
      intros vs (new & -> & Hlen & Hall)%Hvs. exists (v :: new).
      rewrite <- app_assoc. split; [done|]. split; [simpl; lia|].
      by constructor.
    + intros [= <- <-].
      exists evs1. split; [done|]. split; [simpl in *; lia|].
      repeat split; done.
Qed.

(** X23.  [generate_embeddings] is all or nothing: when it returns, there is one
    non-empty vector per text; it makes at most three POSTs per text and
    leaves the store and the cache alone. *)
Theorem generate_embeddings_spec (self : OllamaDirectEmbedder.t) texts
    w r w' :
  generate_embeddings E self texts w = (r, w') ->
  exists evs,
    log w' = log w ++ evs /\ (posts evs <= 3 * length texts)%nat /\
    collection w' = collection w /\ cache w' = cache w /\
    forall vs, r = Ok vs ->
      length vs = length texts /\ Forall (fun v => v <> []) vs.
Proof.
  unfold generate_embeddings.
  intros (evs & Hl & Hp & Hc & Hk & Hvs)%generate_embeddings_loop.
  exists evs. do 4 (split; [done|]).
  by intros vs (new & -> & Hlen & Hall)%Hvs.
Qed.

End Embedder.

Lemma generate_embeddings_spec_witness :
  let run := OllamaDirectEmbedder.generate_embeddings Scenario.flaky
               {| OllamaDirectEmbedder.model := txt "bge-m3" |}
               [txt "cat"; txt "dog"] Scenario.empty_world in
  exists evs,
    log run.2 = log Scenario.empty_world ++ evs /\
    (Scenario.posts evs <= 3 * 2)%nat /\
    collection run.2 = collection Scenario.empty_world /\
    cache run.2 = cache Scenario.empty_world /\
    forall vs, run.1 = Ok vs ->
      length vs = 2%nat /\ Forall (fun v => v <> []) vs.
Proof.
  intros run.
  apply (generate_embeddings_spec Scenario.flaky
           {| OllamaDirectEmbedder.model := txt "bge-m3" |}
           [txt "cat"; txt "dog"] Scenario.empty_world run.1 run.2).
  by vm_compute.
Defined.
